(** * The Jax/Haiku/Dask sine-regression notebook

    A shallow embedding of
    [machine-learning/jax-haiku-dask-dataframe-distributed-example.ipynb].

    The notebook is a linear script of cells.  Its own code is embedded
    definition by definition, under the names the notebook uses.  The library
    calls it makes are embedded as follows.

    - Floating-point arrays are idealised to real numbers ([R]); a
      two-dimensional array is the list of its rows.
    - [hk.Linear], [jax.nn.relu], [jnp.average], [optix.adam],
      [optix.apply_updates], [np.linspace], [dd.from_pandas] and
      [StandardScaler] are written out from the behaviour of the libraries.
    - What the libraries compute and the notebook cannot see is an operation
      of the class [Libraries]: automatic differentiation ([jax.grad]) and the
      pseudo-random samplers, and nothing else.  The rows drawn by
      [DataFrame.sample], the worker to which the scheduler gives a task and
      the order in which the scheduler completes futures are inputs of the
      model.
    - Exceptions raised on ill-shaped arrays are outside the model: the
      operations are total, and agree with the libraries on the shapes that
      the notebook builds. *)

From Stdlib Require Import List Arith Lia ZArith QArith Qround Bool Permutation.
From Stdlib Require Import Reals Lra.
Import ListNotations.

Local Open Scope R_scope.

(** ** Arrays *)

Definition vector := list R.
Definition matrix := list (list R).

Definition Rsum (v : vector) : R := fold_right Rplus 0 v.

(** [ndarray.flatten()] of a two-dimensional array, row-major. *)
Definition flatten (m : matrix) : vector := concat m.

(** [x.shape[-1]] of a two-dimensional array. *)
Definition ncols (m : matrix) : nat := length (hd [] m).

(** The array of shape [(r, c)] whose entry [(i, j)] is [f i j]. *)
Definition tabulate (r c : nat) (f : nat -> nat -> R) : matrix :=
  map (fun i => map (fun j => f i j) (seq 0 c)) (seq 0 r).

(** Elementwise binary operation on two arrays of the same shape. *)
Definition map2 {A B C : Type} (f : A -> B -> C) (u : list A) (v : list B) : list C :=
  map (fun p => f (fst p) (snd p)) (combine u v).

Definition mat_map (f : R -> R) (m : matrix) : matrix := map (map f) m.
Definition mat_map2 (f : R -> R -> R) (m n : matrix) : matrix := map2 (map2 f) m n.

(** ** The example data (cell "create the example data") *)

(** [np.linspace(start, stop, num)] with the default [endpoint=True]:
    [arange(0, num) * step + start] with [step = (stop - start) / (num - 1)],
    and the last entry overwritten by [stop] when [num > 1]. *)
Fixpoint set_last (v : vector) (a : R) : vector :=
  match v with
  | [] => []
  | [_] => [a]
  | b :: v' => b :: set_last v' a
  end.

Definition np_linspace (start stop : R) (num : nat) : vector :=
  let div := (num - 1)%nat in
  let step := (stop - start) / INR div in
  let y := map (fun i => INR i * step + start) (seq 0 num) in
  if (1 <? num)%nat then set_last y stop else y.

(** A row of the pandas dataframe: its index label and the columns ["x"], ["y"]. *)
Record Row := mkRow { idx : nat; x_col : R; y_col : R }.

Definition DataFrame := list Row.

(** [pd.DataFrame({"x": xs, "y": ys})]: the columns side by side under a
    [RangeIndex]. *)
Definition pd_DataFrame (xs ys : vector) : DataFrame :=
  map (fun p => mkRow (fst p) (fst (snd p)) (snd (snd p)))
      (combine (seq 0 (length xs)) (combine xs ys)).

Definition num_points : nat := 50.
Definition x : vector := np_linspace 0 (2 * PI) num_points.
Definition y : vector := map sin x.
(** [x.flatten()] of the one-dimensional [x] is [x] again: the flattening
    of the array whose only row is [x]. *)
Definition df_all : DataFrame := pd_DataFrame (flatten [x]) (flatten [y]).

(** ** The train/validation split *)

(** Python's [round] on a rational: to the nearest integer, ties to even. *)
Definition py_round (q : Q) : Z :=
  let f := Qfloor q in
  let r := (q - inject_Z f)%Q in
  match (r ?= 1 # 2)%Q with
  | Lt => f
  | Gt => (f + 1)%Z
  | Eq => if Z.even f then f else (f + 1)%Z
  end.

Definition train_frac : Q := 8 # 10.

(** The number of rows [DataFrame.sample(frac=...)] draws:
    [round(frac * len(df))]. *)
Definition sample_size (frac : Q) (df : DataFrame) : nat :=
  Z.to_nat (py_round (frac * inject_Z (Z.of_nat (length df)))%Q).

(** [DataFrame.take(locs)]: the rows at the given positions, in that order. *)
Definition df_take (locs : list nat) (df : DataFrame) : DataFrame :=
  flat_map (fun i => match nth_error df i with Some r => [r] | None => [] end) locs.

(** [df.sample(frac, random_state=42)] takes the rows at the positions [locs]
    drawn without replacement by the seeded generator.  The draw is an input
    of the model; [valid_draw] says what pandas guarantees of it. *)
Definition valid_draw (frac : Q) (df : DataFrame) (locs : list nat) : Prop :=
  NoDup locs /\ Forall (fun i => (i < length df)%nat) locs /\
  length locs = sample_size frac df.

Definition df_sample (locs : list nat) (df : DataFrame) : DataFrame := df_take locs df.

Definition mem_nat (n : nat) (l : list nat) : bool := existsb (Nat.eqb n) l.

(** [df.drop(labels=...)]: the rows whose index label is not listed.  pandas
    raises [KeyError] when a label is not in the index: [None]. *)
Definition df_drop (labels : list nat) (df : DataFrame) : option DataFrame :=
  if forallb (fun l => mem_nat l (map idx df)) labels
  then Some (filter (fun r => negb (mem_nat (idx r) labels)) df)
  else None.

Definition df_train (locs : list nat) : DataFrame := df_sample locs df_all.
Definition df_validation (locs : list nat) : option DataFrame :=
  df_drop (map idx (df_train locs)) df_all.

(** ** Dask dataframes (cell "convert the Pandas dataframe into a Dask dataframe") *)

Definition batch_size : nat := 32.

Fixpoint insert_by_idx (r : Row) (df : DataFrame) : DataFrame :=
  match df with
  | [] => [r]
  | r' :: df' => if (idx r <=? idx r')%nat then r :: df else r' :: insert_by_idx r df'
  end.

(** [data.sort_index(ascending=True)] on an index without repeated labels,
    as the notebook's is.  (On rows of equal label the order that pandas'
    sort leaves is not the one of this insertion; no property below is about
    repeated labels.) *)
Definition sort_index (df : DataFrame) : DataFrame := fold_right insert_by_idx [] df.

Fixpoint is_monotonic_increasing (l : list nat) : bool :=
  match l with
  | a :: (b :: _) as t => (a <=? b)%nat && is_monotonic_increasing t
  | _ => true
  end.

(** [range(start, stop, step)] for a positive step. *)
Definition py_range (start stop step : nat) : list nat :=
  map (fun k => (start + k * step)%nat) (seq 0 ((stop - start + step - 1) / step)).

(** [data.iloc[start:stop]]. *)
Definition iloc {A : Type} (data : list A) (start stop : nat) : list A :=
  firstn (stop - start) (skipn start data).

(** The inner loop of dask's [sorted_division_locations]:
    [while pos + 1 < len(seq) and seq[pos - 1] == seq[pos]: pos += 1].
    [pos] grows at every turn and the loop stops before [len(seq)], so
    [len(seq)] turns of fuel are enough. *)
Fixpoint skip_duplicates (fuel : nat) (seq : list nat) (pos : nat) : nat :=
  match fuel with
  | O => pos
  | S fuel' =>
      if ((pos + 1 <? length seq) && (nth (pos - 1) seq 0 =? nth pos seq 0))%nat
      then skip_duplicates fuel' seq (pos + 1)
      else pos
  end.

(** One turn of [for pos in range(0, len(seq), chunksize)]. *)
Definition division_step (seq positions : list nat) (pos : nat) : list nat :=
  if (pos <=? last positions 0)%nat then positions
  else
    let pos1 := skip_duplicates (length seq) seq pos in
    let pos2 := if (pos1 =? length seq - 1)%nat then (pos1 + 1)%nat else pos1 in
    positions ++ [pos2].

(** The positions returned by dask's
    [sorted_division_locations(seq, chunksize=chunksize)]. *)
Definition sorted_division_locations (seq : list nat) (chunksize : nat) : list nat :=
  let positions :=
    fold_left (division_step seq) (py_range 0 (length seq) chunksize) [0%nat] in
  if (last positions 0 =? length seq)%nat then positions
  else positions ++ [length seq].

(** [dd.from_pandas(data, chunksize=chunksize)] with the default [sort=True]:
    the data sorted by index when it is not already, cut at the division
    locations; one partition per pair of consecutive locations. *)
Definition dd_from_pandas (data : DataFrame) (chunksize : nat) : list DataFrame :=
  match data with
  | [] => [data]
  | _ =>
      let data :=
        if is_monotonic_increasing (map idx data) then data else sort_index data in
      let locations := sorted_division_locations (map idx data) chunksize in
      map (fun p => iloc data (fst p) (snd p)) (combine locations (tl locations))
  end.

(** ** Standardising the feature (cell "StandardScaler") *)

(** A row of the Dask dataframes once the column ["scaled_x"] is assigned. *)
Record SRow := mkSRow { base : Row; scaled_x : R }.

Definition SDataFrame := list SRow.

Record StandardScaler := mkScaler { mean_ : R; scale_ : R }.

Definition np_mean (v : vector) : R := Rsum v / INR (length v).

(** [StandardScaler().fit]: the mean and the population standard deviation
    of the column, a zero deviation replaced by one.  (The test is on the
    exact deviation; in floating point the deviation of a constant column need
    not be zero, so the model stands for the code on columns that are not
    constant, as the notebook's is.) *)
Definition scaler_fit (v : vector) : StandardScaler :=
  let m := np_mean v in
  let var := np_mean (map (fun a => (a - m) ^ 2) v) in
  let s := sqrt var in
  mkScaler m (if Req_dec_T s 0 then 1 else s).

Definition scaler_transform (s : StandardScaler) (a : R) : R :=
  (a - mean_ s) / scale_ s.

(** [ddf["scaled_x"] = scaler.transform(ddf[["x"]]).x], partition by partition. *)
Definition assign_scaled_x (s : StandardScaler) (ddf : list DataFrame) : list SDataFrame :=
  map (map (fun r => mkSRow r (scaler_transform s (x_col r)))) ddf.

Definition scaler (locs : list nat) : StandardScaler :=
  scaler_fit (map x_col (concat (dd_from_pandas (df_train locs) batch_size))).

Definition ddf_train (locs : list nat) : list SDataFrame :=
  assign_scaled_x (scaler locs) (dd_from_pandas (df_train locs) batch_size).

Definition ddf_validation (locs : list nat) : option (list SDataFrame) :=
  option_map (fun df => assign_scaled_x (scaler locs) (dd_from_pandas df batch_size))
             (df_validation locs).

(** [jnp.array(df[[col]].values)]: the column as an array of shape [(n, 1)]. *)
Definition column_values {A : Type} (col : A -> R) (df : list A) : matrix :=
  map (fun r => [col r]) df.

(** ** State passing *)

(** Computations that read and write a state of type [S]. *)
Definition State (S A : Type) : Type := S -> A * S.

Definition ret {S A : Type} (a : A) : State S A := fun s => (a, s).

Definition bind {S A B : Type} (m : State S A) (k : A -> State S B) : State S B :=
  fun s => let (a, s') := m s in k a s'.

Notation "v <- m ;; k" := (bind m (fun v => k))
  (at level 61, m at next level, right associativity).

(** ** Haiku parameters and the library operations the notebook cannot see *)

(** The parameters of one [hk.Linear] module. *)
Record LinearParams := mkLinear { w : matrix; b : vector }.

(** [hk.Params]: the parameters of the modules ["linear"], ["linear_1"], ...
    in the order in which the modules are created. *)
Definition Params := list LinearParams.

(** A [jax.random] key: an array of two 32-bit words. *)
Definition Key : Type := Z * Z.

(** [jax.random.PRNGKey(seed)] for a seed of at most 32 bits. *)
Definition jax_random_PRNGKey (seed : Z) : Key := (0%Z, seed).

(** The state of the global [np.random] generator: the words of the
    Mersenne Twister. *)
Definition NpRandomState : Type := list Z.

Class Libraries := {
  (** [jax.random.split(key)] *)
  jax_random_split : Key -> Key * Key;
  (** entry [(i, j)] of [jax.random.truncated_normal(key, -2., 2., shape)] *)
  jax_random_truncated_normal : Key -> nat * nat -> nat -> nat -> R;
  (** entry [(i, j)] of [np.random.random(shape)] drawn in a given state of
      the generator, and the state after the draw *)
  np_random_sample : NpRandomState -> nat * nat -> nat -> nat -> R;
  np_random_next : NpRandomState -> nat * nat -> NpRandomState;
  (** [jax.grad(f)]: the derivative of [f] in its first argument, a tree of
      the shape of the parameters *)
  jax_grad : (Params -> matrix -> matrix -> R) -> Params -> matrix -> matrix -> Params
}.

(** ** The optimizer (cell "Define and initialise an optimizer") *)

(** [jax.tree_util.tree_map] and [tree_multimap] on parameter trees. *)
Definition tree_map (f : R -> R) (t : Params) : Params :=
  map (fun l => mkLinear (mat_map f (w l)) (map f (b l))) t.

Definition tree_multimap (f : R -> R -> R) (t u : Params) : Params :=
  map2 (fun l m => mkLinear (mat_map2 f (w l) (w m)) (map2 f (b l) (b m))) t u.

(** [optix.InitUpdate]: a gradient transformation with state [S]. *)
Record InitUpdate (S : Type) := mkInitUpdate {
  init_fn : Params -> S;
  update_fn : Params -> S -> Params * S
}.

Arguments mkInitUpdate {S} _ _.
Arguments init_fn {S} _ _.
Arguments update_fn {S} _ _ _.

Record ScaleByAdamState := mkAdamState { count : nat; mu : Params; nu : Params }.

(** [optix._update_moment(updates, moments, decay, order)]. *)
Definition update_moment (updates moments : Params) (decay : R) (order : nat) : Params :=
  tree_multimap (fun g t => (1 - decay) * g ^ order + decay * t) updates moments.

(** [optix.scale_by_adam(b1, b2, eps)]. *)
Definition scale_by_adam (b1 b2 eps : R) : InitUpdate ScaleByAdamState :=
  mkInitUpdate
    (fun params =>
       let mu := tree_map (fun _ => 0) params in
       let nu := tree_map (fun _ => 0) params in
       mkAdamState 0 mu nu)
    (fun updates state =>
       let mu := update_moment updates (mu state) b1 1 in
       let nu := update_moment updates (nu state) b2 2 in
       let mu_hat := tree_map (fun t => t / (1 - b1 ^ (count state + 1))) mu in
       let nu_hat := tree_map (fun t => t / (1 - b2 ^ (count state + 1))) nu in
       let updates := tree_multimap (fun m v => m / (sqrt v + eps)) mu_hat nu_hat in
       (updates, mkAdamState (count state + 1) mu nu)).

(** [optix.scale(step_size)]; its state [ScaleState()] is empty. *)
Definition scale (step_size : R) : InitUpdate unit :=
  mkInitUpdate
    (fun _ => tt)
    (fun updates state => (tree_map (fun g => step_size * g) updates, state)).

(** [optix.chain(t1, t2)]: the transformations one after the other, each
    with its own state. *)
Definition chain {S1 S2 : Type} (t1 : InitUpdate S1) (t2 : InitUpdate S2)
  : InitUpdate (S1 * S2) :=
  mkInitUpdate
    (fun params => (init_fn t1 params, init_fn t2 params))
    (fun updates state =>
       let (updates1, new_s1) := update_fn t1 updates (fst state) in
       let (updates2, new_s2) := update_fn t2 updates1 (snd state) in
       (updates2, (new_s1, new_s2))).

(** [optix.adam(learning_rate)] with the default [b1], [b2] and [eps]. *)
Definition optix_adam (learning_rate : R) : InitUpdate (ScaleByAdamState * unit) :=
  chain (scale_by_adam (9 / 10) (999 / 1000) (1 / 100000000)) (scale (- learning_rate)).

(** [optix.apply_updates(params, updates)]. *)
Definition optix_apply_updates (params updates : Params) : Params :=
  tree_multimap (fun p u => p + u) params updates.

Definition OptState : Type := ScaleByAdamState * unit.

Definition optimizer : InitUpdate OptState := optix_adam (1 / 1000).

(** ** Haiku modules *)

Section Notebook.

Context {L : Libraries}.

(** The frame in which [hk.transform] runs a network function: the
    parameters known so far, the number of [hk.Linear] modules met so far,
    and the key sequence ([None] when the function is applied). *)
Record Frame := mkFrame {
  frame_params : Params;
  frame_modules : nat;
  frame_rng : option Key
}.

(** Computations in a frame. *)
Definition Hk (A : Type) : Type := State Frame A.

Definition dot (u v : vector) : R := Rsum (map2 Rmult u v).

Definition column (j : nat) (m : matrix) : vector := map (fun row => nth j row 0) m.

(** [jnp.dot(inputs, w) + b] for [w] of shape [(input_size, output_size)]
    and [b] of shape [(output_size,)], row by row. *)
Definition linear_forward (output_size : nat) (p : LinearParams) (inputs : matrix) : matrix :=
  map (fun row => map (fun j => dot row (column j (w p)) + nth j (b p) 0)
                      (seq 0 output_size))
      inputs.

(** [hk.initializers.TruncatedNormal(stddev)(shape)], with the key drawn
    by [hk.next_rng_key()]. *)
Definition TruncatedNormal (stddev : R) (key : Key) (shape : nat * nat) : matrix :=
  tabulate (fst shape) (snd shape)
           (fun i j => stddev * jax_random_truncated_normal key shape i j + 0).

(** The parameters that [hk.Linear] creates with [hk.get_parameter] when it
    meets inputs of width [input_size] for the first time: [w] of shape
    [(input_size, output_size)] by a truncated normal of deviation
    [1 / sqrt(input_size)], [b] of shape [(output_size,)] by zeros. *)
Definition linear_created (subkey : Key) (input_size output_size : nat) : LinearParams :=
  let stddev := 1 / sqrt (INR input_size) in
  mkLinear (TruncatedNormal stddev subkey (input_size, output_size))
           (repeat 0 output_size).

(** [hk.Linear(output_size)(inputs)].  The parameters of the module are
    looked up in the frame; when they are not there and the frame has a key
    sequence they are created, with the next key of the sequence
    ([hk.next_rng_key()]).  (Haiku raises when they are neither there nor can
    be created; the model then uses empty parameters.) *)
Definition hk_Linear (output_size : nat) (inputs : matrix) : Hk matrix :=
  fun fr =>
    let input_size := ncols inputs in
    match nth_error (frame_params fr) (frame_modules fr) with
    | Some p =>
        (linear_forward output_size p inputs,
         mkFrame (frame_params fr) (S (frame_modules fr)) (frame_rng fr))
    | None =>
        match frame_rng fr with
        | Some rng =>
            let (rng', subkey) := jax_random_split rng in
            let p := linear_created subkey input_size output_size in
            (linear_forward output_size p inputs,
             mkFrame (frame_params fr ++ [p]) (S (frame_modules fr)) (Some rng'))
        | None =>
            (linear_forward output_size (mkLinear [] []) inputs,
             mkFrame (frame_params fr) (S (frame_modules fr)) None)
        end
    end.

(** [jax.nn.relu], elementwise. *)
Definition jax_nn_relu (inputs : matrix) : Hk matrix :=
  ret (mat_map (fun a => Rmax a 0) inputs).

(** [hk.Sequential(layers)(x)]. *)
Fixpoint hk_Sequential (layers : list (matrix -> Hk matrix)) (inputs : matrix)
  : Hk matrix :=
  match layers with
  | [] => ret inputs
  | layer :: layers' => out <- layer inputs ;; hk_Sequential layers' out
  end.

(** [hk.transform(f)]: [init] runs [f] in an empty frame with a key
    sequence and returns the parameters created; [apply] runs it in the frame
    of the given parameters and returns its result. *)
Record Transformed := mkTransformed {
  init : Key -> matrix -> Params;
  apply : Params -> matrix -> matrix
}.

Definition hk_transform (f : matrix -> Hk matrix) : Transformed :=
  mkTransformed
    (fun rng inputs => frame_params (snd (f inputs (mkFrame [] 0 (Some rng)))))
    (fun params inputs => fst (f inputs (mkFrame params 0 None))).

(** ** The network (cell "Define and initialize a Haiku neural network") *)

Definition net_function (inputs : matrix) : Hk matrix :=
  let net := hk_Sequential [
    hk_Linear 50; jax_nn_relu;
    hk_Linear 100; jax_nn_relu;
    hk_Linear 50; jax_nn_relu;
    hk_Linear 1
  ] in
  pred <- net inputs ;;
  ret pred.

(** [np.random.random([rows, cols])]: the array drawn and the generator
    state left behind. *)
Definition np_random_random (s : NpRandomState) (shape : nat * nat)
  : matrix * NpRandomState :=
  (tabulate (fst shape) (snd shape) (np_random_sample s shape), np_random_next s shape).

(** [initialize_net_function()], in the state [s] of the [np.random]
    generator; the state after the call is returned as well. *)
Definition initialize_net_function (s : NpRandomState)
  : (Transformed * Params) * NpRandomState :=
  let net_transform := hk_transform net_function in
  let rng := jax_random_PRNGKey 42 in
  let num_features := 1%nat in
  let (example_x, s') := np_random_random s (batch_size, num_features) in
  let params := init net_transform rng example_x in
  ((net_transform, params), s').

(** The global [net_transform] of the notebook. *)
Definition net_transform : Transformed := hk_transform net_function.

(** [jax.jit(f)] computes what [f] computes. *)
Definition jax_jit {A : Type} (f : A) : A := f.

(** ** The loss (cell "Define a mean squared error loss function") *)

(** [jnp.average(a)]: the sum of the entries over their number, for an
    array that is not empty.  (On the empty array the library gives NaN; the
    quotient by zero written here stands for no value of the code.) *)
Definition jnp_average (a : matrix) : R :=
  Rsum (flatten a) / INR (length (flatten a)).

Definition mean_squared_error (y_true y_pred : matrix) : R :=
  let loss := jnp_average (mat_map (fun d => d ^ 2) (mat_map2 Rminus y_true y_pred)) in
  loss.

Definition loss_function : Params -> matrix -> matrix -> R :=
  jax_jit (fun params x y_true =>
    let y_pred := apply net_transform params x in
    let loss_value := mean_squared_error y_true y_pred in
    loss_value).

(** ** Prediction (cell "Define a predict function") *)

Definition predict : Params -> matrix -> matrix :=
  jax_jit (fun params x => apply net_transform params x).

Definition dask_predict_wrapper (df : SDataFrame) (params : Params) : vector :=
  let scaled_x := column_values scaled_x df in
  flatten (predict params scaled_x).

(** [ddf.map_partitions(f, params=params)]. *)
Definition map_partitions {A : Type} (f : SDataFrame -> Params -> A)
  (ddf : list SDataFrame) (params : Params) : list A :=
  map (fun df => f df params) ddf.

(** ** The update step (CASE 1) *)

Definition update : Params -> OptState -> matrix -> matrix -> Params * OptState :=
  jax_jit (fun params opt_state x y =>
    let grads := jax_grad loss_function params x y in
    let (updates, opt_state) := update_fn optimizer grads opt_state in
    let params := optix_apply_updates params updates in
    (params, opt_state)).

(** ** The gradient task (CASE 2) *)

Definition compute_grads : Params -> matrix -> matrix -> Params :=
  jax_jit (fun params x y =>
    let grads := jax_grad loss_function params x y in
    grads).

Definition dask_compute_grads_one_partition_wrapper (ddf : SDataFrame) (params : Params)
  : Params :=
  let scaled_x := column_values scaled_x ddf in
  let y := column_values (fun r => y_col (base r)) ddf in
  let grads := compute_grads params scaled_x y in
  grads.

(** ** The notebook as a script *)

(** What the client does, in the order in which it does it. *)
Inductive Event :=
| EvCompute (partition : nat)
    (** [ddf_one_partition.compute()]: the partition is loaded on the client *)
| EvUpdate (x y : matrix)
    (** a call of [update] on the client with these batch arrays *)
| EvSubmit (partition : nat) (params : Params)
    (** [client.submit(dask_compute_grads_one_partition_wrapper, partition, params)] *)
| EvOptimizerUpdate (grads : Params)
    (** [optimizer.update(grads, opt_state)] on the client *)
| EvApplyUpdates (updates : Params)
    (** [optix.apply_updates(params, updates)] on the client *).

(** The global variables of the notebook that the training cells read and
    write, the state of the [np.random] generator, and the trace of the
    client. *)
Record Globals := mkGlobals {
  params : Params;
  opt_state : OptState;
  np_state : NpRandomState;
  trace : list Event
}.

Definition get : State Globals Globals := fun g => (g, g).

Definition set_params (p : Params) : State Globals unit :=
  fun g => (tt, mkGlobals p (opt_state g) (np_state g) (trace g)).

Definition set_opt_state (o : OptState) : State Globals unit :=
  fun g => (tt, mkGlobals (params g) o (np_state g) (trace g)).

Definition set_np_state (s : NpRandomState) : State Globals unit :=
  fun g => (tt, mkGlobals (params g) (opt_state g) s (trace g)).

Definition log (e : Event) : State Globals unit :=
  fun g => (tt, mkGlobals (params g) (opt_state g) (np_state g) (trace g ++ [e])).

(** [for a in l: body(a)]. *)
Fixpoint for_each {S A : Type} (l : list A) (body : A -> State S unit) : State S unit :=
  match l with
  | [] => ret tt
  | a :: l' => _ <- body a ;; for_each l' body
  end.

(** [ddf.partitions]: the partitions as lazy one-partition dataframes, each
    known by its number. *)
Definition partitions (ddf : list SDataFrame) : list (nat * SDataFrame) :=
  combine (seq 0 (length ddf)) ddf.

(** [ddf_one_partition.compute()]. *)
Definition dask_compute (ddf_one_partition : nat * SDataFrame) : State Globals SDataFrame :=
  _ <- log (EvCompute (fst ddf_one_partition)) ;;
  ret (snd ddf_one_partition).

(** Cell [net_transform, params = initialize_net_function()]; also the
    first line of the reset cell. *)
Definition cell_initialize : State Globals unit :=
  g <- get ;;
  let (r, s') := initialize_net_function (np_state g) in
  _ <- set_np_state s' ;;
  set_params (snd r).

(** Cell [opt_state = optimizer.init(params)]; also the second line of the
    reset cell. *)
Definition cell_optimizer_init : State Globals unit :=
  g <- get ;;
  set_opt_state (init_fn optimizer (params g)).

(** *** CASE 1: Dask as a lazy loader *)

Definition num_epochs : nat := 200.

Definition train_case1_body (ddf_one_partition : nat * SDataFrame) : State Globals unit :=
  df_one_partition <- dask_compute ddf_one_partition ;;
  let scaled_x := column_values scaled_x df_one_partition in
  let y := column_values (fun r => y_col (base r)) df_one_partition in
  g <- get ;;
  _ <- log (EvUpdate scaled_x y) ;;
  let (params, opt_state) := update (params g) (opt_state g) scaled_x y in
  _ <- set_params params ;;
  set_opt_state opt_state.

Definition train_case1 (ddf_train : list SDataFrame) : State Globals unit :=
  for_each (seq 0 num_epochs) (fun epoch_number =>
    for_each (partitions ddf_train) train_case1_body).

(** *** CASE 2: gradients on the workers, updates on the client *)

(** A future of [client.submit(f, partition, params)]: the task it stands
    for.  The worker that runs the task returns [f(partition, params)]. *)
Record Future := mkFuture {
  task_partition : nat * SDataFrame;
  task_params : Params
}.

Definition future_result (f : Future) : Params :=
  dask_compute_grads_one_partition_wrapper (snd (task_partition f)) (task_params f).

Definition client_submit (ddf_one_partition : nat * SDataFrame) (params : Params)
  : State Globals Future :=
  _ <- log (EvSubmit (fst ddf_one_partition) params) ;;
  ret (mkFuture ddf_one_partition params).

Fixpoint remove_nth {A : Type} (i : nat) (l : list A) : list A :=
  match l, i with
  | [], _ => []
  | _ :: l', O => l'
  | a :: l', S i' => a :: remove_nth i' l'
  end.

(** [as_completed(futures, with_results=True)]: the futures with their
    results, in the order in which the scheduler completes them.  The
    scheduler is the oracle [picks]: at turn [k] the future completed is the
    one at place [picks k] (modulo their number) among those still pending.
    Every turn completes a future, so [len(futures)] turns of fuel are
    enough. *)
Fixpoint completion (fuel : nat) (picks : nat -> nat) (k : nat) (pending : list Future)
  : list (Future * Params) :=
  match fuel, pending with
  | S fuel', f0 :: _ =>
      let i := (picks k mod length pending)%nat in
      let f := nth i pending f0 in
      (f, future_result f) :: completion fuel' picks (S k) (remove_nth i pending)
  | _, _ => []
  end.

Definition as_completed (picks : nat -> nat) (futures : list Future)
  : list (Future * Params) :=
  completion (length futures) picks 0 futures.

(** The first inner loop: one task per partition, each submitted with the
    current value of the global [params]. *)
Fixpoint submit_all (parts : list (nat * SDataFrame)) (futures : list Future)
  : State Globals (list Future) :=
  match parts with
  | [] => ret futures
  | ddf_one_partition :: parts' =>
      g <- get ;;
      future <- client_submit ddf_one_partition (params g) ;;
      submit_all parts' (futures ++ [future])
  end.

(** The body of the second inner loop. *)
Definition aggregate_body (completed : Future * Params) : State Globals unit :=
  let grads := snd completed in
  g <- get ;;
  _ <- log (EvOptimizerUpdate grads) ;;
  let (updates, opt_state) := update_fn optimizer grads (opt_state g) in
  _ <- set_opt_state opt_state ;;
  _ <- log (EvApplyUpdates updates) ;;
  set_params (optix_apply_updates (params g) updates).

Definition train_case2_epoch (picks : nat -> nat) (ddf_train : list SDataFrame)
  : State Globals unit :=
  futures <- submit_all (partitions ddf_train) [] ;;
  for_each (as_completed picks futures) aggregate_body.

(** The scheduler of the whole loop: [scheduler epoch_number] is the oracle
    of that epoch. *)
Definition train_case2 (scheduler : nat -> nat -> nat) (ddf_train : list SDataFrame)
  : State Globals unit :=
  for_each (seq 0 num_epochs) (fun epoch_number =>
    train_case2_epoch (scheduler epoch_number) ddf_train).

(** *** The cells in order *)

(** The globals before any cell has run: the generator in state [s], the
    variables not yet bound. *)
Definition fresh_kernel (s : NpRandomState) : Globals :=
  mkGlobals [] (init_fn optimizer []) s [].

(** The notebook up to the CASE 1 training loop. *)
Definition before_case1 : State Globals unit :=
  _ <- cell_initialize ;;
  cell_optimizer_init.

(** ... through the CASE 1 loop and the reset cell. *)
Definition before_case2 (ddf_train : list SDataFrame) : State Globals unit :=
  _ <- before_case1 ;;
  _ <- train_case1 ddf_train ;;
  _ <- cell_initialize ;;
  cell_optimizer_init.

(** ... and through the CASE 2 loop. *)
Definition notebook (scheduler : nat -> nat -> nat) (ddf_train : list SDataFrame)
  : State Globals unit :=
  _ <- before_case2 ddf_train ;;
  train_case2 scheduler ddf_train.

(** *** The steps of the loops as functions, for the statements *)

(** The two batch arrays that both loops build from a partition. *)
Definition batch_arrays (df : SDataFrame) : matrix * matrix :=
  (column_values scaled_x df, column_values (fun r => y_col (base r)) df).

(** The update step on a pair [(params, opt_state)] and a batch. *)
Definition update_on (st : Params * OptState) (batch : matrix * matrix)
  : Params * OptState :=
  update (fst st) (snd st) (fst batch) (snd batch).

(** What the client does with one gradient in CASE 2: one optimizer update,
    one application of the updates. *)
Definition client_step (st : Params * OptState) (grads : Params) : Params * OptState :=
  let (updates, opt_state) := update_fn optimizer grads (snd st) in
  (optix_apply_updates (fst st) updates, opt_state).

(** The events of one turn of the CASE 1 loop on a partition. *)
Definition case1_events (part : nat * SDataFrame) : list Event :=
  [EvCompute (fst part);
   EvUpdate (fst (batch_arrays (snd part))) (snd (batch_arrays (snd part)))].

End Notebook.

(** ** An instance of the library operations

    Keys split by counting, every sample a constant, the generator state
    left as it is, and the zero gradient.  It stands for no library; it is
    there so that the functions of the notebook can be evaluated on concrete
    arrays. *)
Definition constant_libraries : Libraries := {|
  jax_random_split := fun key => ((fst key, (snd key + 1)%Z), (fst key, (snd key + 2)%Z));
  jax_random_truncated_normal := fun _ _ _ _ => 0;
  np_random_sample := fun _ _ _ _ => 1 / 2;
  np_random_next := fun s _ => s;
  jax_grad := fun _ params _ _ => tree_map (fun _ => 0) params
|}.

(** The tree of the shape of the network's parameters whose entries are all
    [c]: layers of shapes (1, 50), (50, 100), (100, 50) and (50, 1). *)
Definition constant_tree (c : R) : Params :=
  [ mkLinear (repeat (repeat c 50) 1) (repeat c 50);
    mkLinear (repeat (repeat c 100) 50) (repeat c 100);
    mkLinear (repeat (repeat c 50) 100) (repeat c 50);
    mkLinear (repeat (repeat c 1) 50) (repeat c 1) ].

(** Two tasks of an epoch that starts from the parameters [constant_tree 0],
    one on a partition of one row and one on a partition of two rows, with the
    gradients [constant_tree 1] and [constant_tree 2] as their results, in the
    two orders in which they can complete. *)
Definition example_future (i : nat) (rows : list R) : Future :=
  mkFuture (i, map (fun a => mkSRow (mkRow i a (sin a)) a) rows) (constant_tree 0).

Definition completed_ab : list (Future * Params) :=
  [ (example_future 0 [1], constant_tree 1);
    (example_future 1 [2; 3], constant_tree 2) ].

Definition completed_ba : list (Future * Params) :=
  [ (example_future 1 [2; 3], constant_tree 2);
    (example_future 0 [1], constant_tree 1) ].

(** The globals at the start of that epoch. *)
Definition example_globals : Globals :=
  mkGlobals (constant_tree 0) (init_fn optimizer (constant_tree 0)) [] [].

(** ** The cluster (CASE 2)

    [client.submit] does not run the function on the client: the scheduler
    hands the task to one of the workers of the cluster, and that worker calls
    the function on the arguments it is sent and keeps the result until the
    client gathers it.  Which worker runs which task is the scheduler's
    choice, an input of the model like the order of completion. *)

Section Cluster.

Context {L : Libraries}.

(** A task run on a worker: the worker, the future that stands for the task,
    and the result that the worker holds for it. *)
Record TaskRun := mkTaskRun {
  run_worker : nat;
  run_future : Future;
  run_result : Params
}.

(** The client with the notebook's globals, and the tasks that the workers
    have run, in the order of their submission. *)
Record Distributed := mkDistributed {
  client_side : Globals;
  worker_side : list TaskRun
}.

(** What the client does leaves the workers as they are. *)
Definition on_client {A : Type} (m : State Globals A) : State Distributed A :=
  fun d => let (a, g) := m (client_side d) in (a, mkDistributed g (worker_side d)).

(** The worker [w] runs the task of a future: it calls
    [dask_compute_grads_one_partition_wrapper] on the partition and the
    parameters that were sent with the task. *)
Definition worker_run (w : nat) (future : Future) : TaskRun :=
  mkTaskRun w future
    (dask_compute_grads_one_partition_wrapper
       (snd (task_partition future)) (task_params future)).

(** [client.submit(dask_compute_grads_one_partition_wrapper, partition,
    params)] when the scheduler gives the task to the worker [w]. *)
Definition cluster_submit (w : nat) (ddf_one_partition : nat * SDataFrame)
  (params : Params) : State Distributed Future :=
  future <- on_client (client_submit ddf_one_partition params) ;;
  fun d => (future, mkDistributed (client_side d) (worker_side d ++ [worker_run w future])).

(** The first inner loop on the cluster; [assign] is the scheduler's choice
    of a worker for the task of each partition. *)
Fixpoint cluster_submit_all (assign : nat -> nat) (parts : list (nat * SDataFrame))
  (futures : list Future) : State Distributed (list Future) :=
  match parts with
  | [] => ret futures
  | ddf_one_partition :: parts' =>
      g <- on_client get ;;
      future <- cluster_submit (assign (fst ddf_one_partition)) ddf_one_partition
                               (params g) ;;
      cluster_submit_all assign parts' (futures ++ [future])
  end.

(** One epoch of the CASE 2 loop on the cluster: the tasks go to the workers,
    the second inner loop runs on the client. *)
Definition train_case2_epoch_on_cluster (assign picks : nat -> nat)
  (ddf_train : list SDataFrame) : State Distributed unit :=
  futures <- cluster_submit_all assign (partitions ddf_train) [] ;;
  on_client (for_each (as_completed picks futures) aggregate_body).

(** The CASE 2 loop on the cluster: [assignment epoch_number] and
    [scheduler epoch_number] are the scheduler's choices in that epoch. *)
Definition train_case2_on_cluster (assignment scheduler : nat -> nat -> nat)
  (ddf_train : list SDataFrame) : State Distributed unit :=
  for_each (seq 0 num_epochs) (fun epoch_number =>
    train_case2_epoch_on_cluster (assignment epoch_number) (scheduler epoch_number)
                                 ddf_train).

End Cluster.

(** ** Shapes of parameter trees *)

(** The shape of the parameters of a layer: the lengths of the rows of [w]
    and the length of [b]. *)
Definition linear_shape (p : LinearParams) : list nat * nat :=
  (map (@length R) (w p), length (b p)).

Definition tree_shape (t : Params) : list (list nat * nat) := map linear_shape t.

(** The shape that the network of the notebook gives its parameters on
    batches of one feature: [w] of shapes (1, 50), (50, 100), (100, 50) and
    (50, 1), [b] of shapes (50,), (100,), (50,) and (1,). *)
Definition net_shape : list (list nat * nat) :=
  [ (repeat 50 1, 50); (repeat 100 50, 100); (repeat 50 100, 50); (repeat 1 50, 1) ]%nat.

(** What the loop over the positions keeps true: the slices so far are the
    data up to the last position, which is within the data. *)
Definition covers {A : Type} (data : list A) (positions : list nat) : Prop :=
  positions <> [] /\
  (last positions 0 <= length data)%nat /\
  concat (map (fun p => iloc data (fst p) (snd p)) (combine positions (tl positions)))
  = firstn (last positions 0%nat) data.

(** The parameters and both moments of the optimizer have the shape [S]. *)
Definition shaped (S : list (list nat * nat)) (st : Params * OptState) : Prop :=
  tree_shape (fst st) = S /\
  tree_shape (mu (fst (snd st))) = S /\
  tree_shape (nu (fst (snd st))) = S.

(** * Properties *)

(** ** Lists *)

Lemma map_fst_combine {A B : Type} (l : list A) (l' : list B) :
  length l = length l' -> map fst (combine l l') = l.
Proof.
  revert l'; induction l as [|a l IH]; intros [|c l'] Hlen; simpl in *;
    try discriminate; try reflexivity.
  f_equal. apply IH. lia.
Qed.

Lemma map_snd_combine {A B : Type} (l : list A) (l' : list B) :
  length l = length l' -> map snd (combine l l') = l'.
Proof.
  revert l'; induction l as [|a l IH]; intros [|c l'] Hlen; simpl in *;
    try discriminate; try reflexivity.
  f_equal. apply IH. lia.
Qed.

Lemma set_last_snoc (v : vector) (c a : R) : set_last (v ++ [c]) a = v ++ [a].
Proof.
  induction v as [|d v IH]; [reflexivity|].
  simpl. rewrite IH. destruct v; reflexivity.
Qed.

(** ** The example data *)

(** [np.linspace] with at least two points is evenly spaced from [start] to
    [stop], both included. *)
Lemma np_linspace_evenly_spaced (start stop : R) (n : nat) :
  (0 < n)%nat ->
  np_linspace start stop (S n) =
  map (fun i => start + INR i * ((stop - start) / INR n)) (seq 0 (S n)).
Proof.
  intros Hn. unfold np_linspace.
  replace (1 <? S n)%nat with true by (symmetry; apply Nat.ltb_lt; lia).
  replace (S n - 1)%nat with n by lia.
  rewrite seq_S, !map_app. simpl map at 2. simpl map at 3.
  rewrite set_last_snoc. f_equal.
  - apply map_ext. intros i. ring.
  - f_equal. simpl Nat.add. field. apply not_0_INR. lia.
Qed.

Lemma x_evenly_spaced : x = map (fun i => INR i * (2 * PI / 49)) (seq 0 50).
Proof.
  unfold x, num_points.
  rewrite (np_linspace_evenly_spaced 0 (2 * PI) 49) by lia.
  apply map_ext. intros i.
  replace (INR 49) with 49 by (rewrite INR_IZR_INZ; reflexivity).
  field.
Qed.

Lemma length_x : length x = 50%nat.
Proof. rewrite x_evenly_spaced, length_map, length_seq. reflexivity. Qed.

Lemma pd_DataFrame_idx (xs ys : vector) :
  length xs = length ys -> map idx (pd_DataFrame xs ys) = seq 0 (length xs).
Proof.
  intros Hlen. unfold pd_DataFrame. rewrite map_map. simpl.
  rewrite <- (map_map fst (fun i => i)), map_fst_combine, map_id; [reflexivity|].
  rewrite length_seq, length_combine. lia.
Qed.

Lemma pd_DataFrame_columns (xs ys : vector) :
  length xs = length ys ->
  map (fun r => (x_col r, y_col r)) (pd_DataFrame xs ys) = combine xs ys.
Proof.
  intros Hlen. unfold pd_DataFrame. rewrite map_map. simpl.
  rewrite (map_ext _ snd) by (intros [i [a c]]; reflexivity).
  apply map_snd_combine. rewrite length_seq, length_combine. lia.
Qed.

Lemma df_all_unfold : df_all = pd_DataFrame x (map sin x).
Proof. unfold df_all, flatten. cbn [concat]. rewrite !app_nil_r. reflexivity. Qed.

Lemma df_all_idx : map idx df_all = seq 0 50.
Proof.
  rewrite df_all_unfold, pd_DataFrame_idx by (rewrite length_map; reflexivity).
  rewrite length_x. reflexivity.
Qed.

Lemma length_df_all : length df_all = 50%nat.
Proof. rewrite <- (length_map idx), df_all_idx, length_seq. reflexivity. Qed.

Lemma df_all_columns :
  map (fun r => (x_col r, y_col r)) df_all = map (fun a => (a, sin a)) x.
Proof.
  rewrite df_all_unfold, pd_DataFrame_columns by (rewrite length_map; reflexivity).
  induction x as [|a v IH]; [reflexivity|]. simpl. rewrite IH. reflexivity.
Qed.

(** C6: the dataset is the table of the pairs (x, sin x) at 50 evenly
    spaced points from 0 to 2*pi inclusive: the index is 0..49, row i holds
    x = i * (2*pi/49), the first x is 0 and the last is 2*pi, and in every row
    y is the sine of that row's x. *)
Theorem C6_dataset_is_sine_table :
  map idx df_all = seq 0 50 /\
  map x_col df_all = map (fun i => INR i * (2 * PI / 49)) (seq 0 50) /\
  hd 1 (map x_col df_all) = 0 /\
  last (map x_col df_all) 1 = 2 * PI /\
  Forall (fun r => y_col r = sin (x_col r)) df_all.
Proof.
  assert (Hx : map x_col df_all = x).
  { rewrite <- (map_map (fun r => (x_col r, y_col r)) fst), df_all_columns, map_map.
    apply map_id. }
  split; [exact df_all_idx|]. split; [rewrite Hx; exact x_evenly_spaced|].
  split; [|split].
  - rewrite Hx, x_evenly_spaced.
    change (seq 0 50) with (0%nat :: seq 1 49). simpl. lra.
  - rewrite Hx, x_evenly_spaced.
    change 50%nat with (S 49). rewrite seq_S, map_app. simpl map at 2.
    rewrite last_last. simpl Nat.add.
    replace (INR 49) with 49 by (rewrite INR_IZR_INZ; reflexivity).
    field.
  - apply Forall_forall. intros r Hr.
    apply (in_map (fun r => (x_col r, y_col r))) in Hr.
    rewrite df_all_columns in Hr. apply in_map_iff in Hr.
    destruct Hr as [a [Ha _]]. inversion Ha. reflexivity.
Qed.

(** ** The train/validation split *)

Lemma mem_nat_In (n : nat) (l : list nat) : mem_nat n l = true <-> In n l.
Proof.
  unfold mem_nat. rewrite existsb_exists. split.
  - intros [m [Hm Heq]]. apply Nat.eqb_eq in Heq. subst. exact Hm.
  - intros Hin. exists n. split; [exact Hin | apply Nat.eqb_refl].
Qed.

(** Under a [RangeIndex] the row at position [i] carries the label [i]. *)
Lemma range_index_nth (df : DataFrame) (i : nat) (r : Row) :
  map idx df = seq 0 (length df) -> nth_error df i = Some r -> idx r = i.
Proof.
  intros Hidx Hnth.
  assert (Hi : (i < length df)%nat) by (apply nth_error_Some; congruence).
  apply (map_nth_error idx) in Hnth. rewrite Hidx in Hnth.
  rewrite nth_error_nth' with (d := 0%nat) in Hnth by (rewrite length_seq; exact Hi).
  rewrite seq_nth in Hnth by exact Hi. simpl in Hnth. congruence.
Qed.

Lemma df_take_idx (df : DataFrame) (locs : list nat) :
  map idx df = seq 0 (length df) ->
  Forall (fun i => (i < length df)%nat) locs ->
  map idx (df_take locs df) = locs.
Proof.
  intros Hidx Hlocs. unfold df_take.
  induction Hlocs as [|i locs Hi _ IH]; [reflexivity|].
  simpl. destruct (nth_error df i) as [r|] eqn:Hnth.
  - simpl. rewrite IH. f_equal. eapply range_index_nth; eassumption.
  - apply nth_error_None in Hnth. lia.
Qed.

Lemma df_take_In (df : DataFrame) (locs : list nat) (r : Row) :
  In r (df_take locs df) <-> exists i, In i locs /\ nth_error df i = Some r.
Proof.
  unfold df_take. rewrite in_flat_map. split; intros [i [Hi Hr]]; exists i; split; trivial.
  - destruct (nth_error df i); simpl in Hr; [|contradiction].
    destruct Hr as [Hr|[]]. congruence.
  - rewrite Hr. left. reflexivity.
Qed.

Lemma NoDup_of_idx (df : DataFrame) : NoDup (map idx df) -> NoDup df.
Proof. apply NoDup_map_inv. Qed.

(** Taking distinct positions and dropping the labels taken splits a
    dataframe with a [RangeIndex] in two. *)
Lemma take_drop_partition (df : DataFrame) (locs : list nat) :
  map idx df = seq 0 (length df) ->
  NoDup locs ->
  Forall (fun i => (i < length df)%nat) locs ->
  df_drop (map idx (df_take locs df)) df
    = Some (filter (fun r => negb (mem_nat (idx r) locs)) df) /\
  Permutation (df_take locs df ++ filter (fun r => negb (mem_nat (idx r) locs)) df) df.
Proof.
  intros Hidx Hnd Hlocs.
  assert (Htake : map idx (df_take locs df) = locs) by (apply df_take_idx; assumption).
  assert (Hdf : NoDup df).
  { apply NoDup_of_idx. rewrite Hidx. apply seq_NoDup. }
  split.
  - unfold df_drop. rewrite Htake.
    replace (forallb (fun l => mem_nat l (map idx df)) locs) with true; [reflexivity|].
    symmetry. apply forallb_forall. intros i Hi. apply mem_nat_In.
    rewrite Hidx. apply in_seq. rewrite Forall_forall in Hlocs.
    specialize (Hlocs i Hi). lia.
  - apply NoDup_Permutation.
    + apply NoDup_app.
      * apply NoDup_of_idx. rewrite Htake. exact Hnd.
      * apply NoDup_filter. exact Hdf.
      * intros r Hr1 Hr2.
        apply (in_map idx) in Hr1. rewrite Htake in Hr1.
        apply filter_In in Hr2. destruct Hr2 as [_ Hr2].
        apply mem_nat_In in Hr1. rewrite Hr1 in Hr2. discriminate.
    + exact Hdf.
    + intros r. rewrite in_app_iff, df_take_In, filter_In. split.
      * intros [[i [_ Hr]]|[Hr _]]; [eapply nth_error_In; eassumption | exact Hr].
      * intros Hr. destruct (mem_nat (idx r) locs) eqn:Hmem.
        -- left. apply mem_nat_In in Hmem.
           destruct (In_nth_error _ _ Hr) as [i Hi].
           exists i. split; [|exact Hi].
           rewrite <- (range_index_nth df i r Hidx Hi). exact Hmem.
        -- right. split; [exact Hr | reflexivity].
Qed.

Lemma sample_size_df_all : sample_size train_frac df_all = 40%nat.
Proof. unfold sample_size. rewrite length_df_all. reflexivity. Qed.

(** The split, for any valid draw. *)
Lemma split_shapes (locs : list nat) :
  valid_draw train_frac df_all locs ->
  df_validation locs
    = Some (filter (fun r => negb (mem_nat (idx r) (map idx (df_train locs)))) df_all) /\
  map idx (df_train locs) = locs /\
  Permutation
    (df_train locs
       ++ filter (fun r => negb (mem_nat (idx r) (map idx (df_train locs)))) df_all)
    df_all /\
  length (df_train locs) = 40%nat.
Proof.
  intros [Hnd [Hlocs Hlen]].
  assert (Hidx : map idx df_all = seq 0 (length df_all))
    by (rewrite length_df_all; exact df_all_idx).
  destruct (take_drop_partition df_all locs Hidx Hnd Hlocs) as [Hdrop Hperm].
  assert (Htake : map idx (df_take locs df_all) = locs) by (apply df_take_idx; assumption).
  unfold df_validation, df_train, df_sample. rewrite Hdrop, Htake.
  split; [reflexivity|]. split; [reflexivity|]. split; [exact Hperm|].
  rewrite <- (length_map idx), Htake, Hlen. exact sample_size_df_all.
Qed.

(** C7: the train/validation split partitions the table.  Whatever 40 rows
    the seeded sample draws (80% of 50, distinct positions), the validation
    subset is exactly the rows of the table whose label was not drawn, the two
    subsets together are a rearrangement of the table in which no label occurs
    twice, and they have 40 and 10 rows. *)
Theorem C7_split_partitions_table (locs : list nat) :
  valid_draw train_frac df_all locs ->
  exists validation,
    df_validation locs = Some validation /\
    validation = filter (fun r => negb (mem_nat (idx r) (map idx (df_train locs)))) df_all /\
    Permutation (df_train locs ++ validation) df_all /\
    NoDup (map idx (df_train locs ++ validation)) /\
    length (df_train locs) = 40%nat /\
    length validation = 10%nat.
Proof.
  intros Hdraw.
  destruct (split_shapes locs Hdraw) as [Hval [_ [Hperm Hlt]]].
  eexists. split; [exact Hval|].
  split; [reflexivity|]. split; [exact Hperm|]. split; [|split].
  - apply (Permutation_NoDup (l := map idx df_all)).
    + apply Permutation_sym, Permutation_map, Hperm.
    + rewrite df_all_idx. apply seq_NoDup.
  - exact Hlt.
  - apply Permutation_length in Hperm.
    rewrite length_app, length_df_all, Hlt in Hperm. lia.
Qed.

(** A draw to try the split on: the positions 5, 6, ..., 44. *)
Lemma valid_draw_example : valid_draw train_frac df_all (seq 5 40).
Proof.
  split; [apply seq_NoDup|]. split.
  - apply Forall_forall. intros i Hi. apply in_seq in Hi.
    rewrite length_df_all. lia.
  - rewrite length_seq, sample_size_df_all. reflexivity.
Qed.

Lemma C7_split_partitions_table_witness :
  valid_draw train_frac df_all (seq 5 40) /\
  exists validation,
    df_validation (seq 5 40) = Some validation /\
    validation
      = filter (fun r => negb (mem_nat (idx r) (map idx (df_train (seq 5 40))))) df_all /\
    Permutation (df_train (seq 5 40) ++ validation) df_all /\
    NoDup (map idx (df_train (seq 5 40) ++ validation)) /\
    length (df_train (seq 5 40)) = 40%nat /\
    length validation = 10%nat.
Proof.
  split; [exact valid_draw_example|].
  apply (C7_split_partitions_table (seq 5 40)). exact valid_draw_example.
Defined.

(** ** The partitions of the Dask dataframes *)

Lemma insert_by_idx_perm (r : Row) (df : DataFrame) :
  Permutation (insert_by_idx r df) (r :: df).
Proof.
  induction df as [|r' df IH]; simpl; [reflexivity|].
  destruct (idx r <=? idx r')%nat; [reflexivity|].
  rewrite IH. apply perm_swap.
Qed.

Lemma sort_index_perm (df : DataFrame) : Permutation (sort_index df) df.
Proof.
  induction df as [|r df IH]; simpl; [reflexivity|].
  rewrite insert_by_idx_perm. constructor. exact IH.
Qed.

(** The model on the examples of dask's documentation: six distinct labels
    in chunks of two and of three, and labels with duplicates, which are never
    split over two partitions. *)
Example sorted_division_locations_chunks_of_2 :
  sorted_division_locations (seq 0 6) 2 = [0; 2; 4; 6]%nat.
Proof. reflexivity. Qed.

Example sorted_division_locations_chunks_of_3 :
  sorted_division_locations (seq 0 6) 3 = [0; 3; 6]%nat.
Proof. reflexivity. Qed.

Example sorted_division_locations_duplicates :
  sorted_division_locations [0; 0; 0; 0; 1; 1; 1; 2]%nat 3 = [0; 4; 8]%nat.
Proof. reflexivity. Qed.

(** A division that would hold the last label alone is merged into the one
    before it: 33 distinct labels in chunks of 32 make one partition of 33. *)
Example sorted_division_locations_33 :
  sorted_division_locations (seq 0 33) 32 = [0; 33]%nat.
Proof. reflexivity. Qed.

Lemma skip_duplicates_stop (fuel : nat) (labels : list nat) (pos : nat) :
  (nth (pos - 1) labels 0 =? nth pos labels 0)%nat = false ->
  skip_duplicates fuel labels pos = pos.
Proof.
  intros Hneq. destruct fuel; [reflexivity|].
  simpl. rewrite Hneq, andb_false_r. reflexivity.
Qed.

(** With 40 labels, no two of them equal, and chunks of 32 the division
    locations are 0, 32 and 40. *)
Lemma sorted_division_locations_40 (labels : list nat) :
  length labels = 40%nat -> NoDup labels ->
  sorted_division_locations labels 32 = [0; 32; 40]%nat.
Proof.
  intros Hlen Hnd.
  assert (Hneq : (nth (32 - 1) labels 0 =? nth 32 labels 0)%nat = false).
  { apply Nat.eqb_neq. intros Heq.
    apply (proj1 (NoDup_nth labels 0%nat) Hnd) in Heq; simpl; lia. }
  unfold sorted_division_locations. rewrite Hlen.
  change (py_range 0 40 32) with [0; 32]%nat.
  cbn [fold_left]. unfold division_step at 2. cbn [last Nat.leb].
  unfold division_step. rewrite skip_duplicates_stop by exact Hneq.
  rewrite Hlen. reflexivity.
Qed.

(** With at most 32 labels there is one division: locations 0 and the
    number of labels. *)
Lemma sorted_division_locations_10 (labels : list nat) :
  length labels = 10%nat -> sorted_division_locations labels 32 = [0; 10]%nat.
Proof.
  intros Hlen. unfold sorted_division_locations. rewrite Hlen. reflexivity.
Qed.

Lemma length_iloc {A : Type} (data : list A) (start stop : nat) :
  (start <= stop <= length data)%nat -> length (iloc data start stop) = (stop - start)%nat.
Proof.
  intros H. unfold iloc. rewrite length_firstn, length_skipn. lia.
Qed.

Lemma dd_from_pandas_40 (data : DataFrame) :
  length data = 40%nat -> NoDup (map idx data) ->
  map (@length Row) (dd_from_pandas data 32) = [32; 8]%nat.
Proof.
  intros Hlen Hnd. unfold dd_from_pandas.
  destruct data as [|r0 data0] eqn:Hdata; [discriminate|]. rewrite <- Hdata in *.
  set (sorted := if is_monotonic_increasing (map idx data) then data else sort_index data).
  assert (Hperm : Permutation sorted data).
  { unfold sorted. destruct (is_monotonic_increasing _);
      [reflexivity | apply sort_index_perm]. }
  assert (Hlen' : length sorted = 40%nat)
    by (rewrite (Permutation_length Hperm); exact Hlen).
  rewrite sorted_division_locations_40.
  - simpl. rewrite !length_iloc by lia. reflexivity.
  - rewrite length_map. exact Hlen'.
  - apply (Permutation_NoDup (l := map idx data)); [|exact Hnd].
    apply Permutation_sym, Permutation_map, Hperm.
Qed.

Lemma dd_from_pandas_10 (data : DataFrame) :
  length data = 10%nat -> map (@length Row) (dd_from_pandas data 32) = [10%nat].
Proof.
  intros Hlen. unfold dd_from_pandas.
  destruct data as [|r0 data0] eqn:Hdata; [discriminate|]. rewrite <- Hdata in *.
  set (sorted := if is_monotonic_increasing (map idx data) then data else sort_index data).
  assert (Hperm : Permutation sorted data).
  { unfold sorted. destruct (is_monotonic_increasing _);
      [reflexivity | apply sort_index_perm]. }
  assert (Hlen' : length sorted = 10%nat)
    by (rewrite (Permutation_length Hperm); exact Hlen).
  rewrite sorted_division_locations_10 by (rewrite length_map; exact Hlen').
  simpl. rewrite !length_iloc by lia. reflexivity.
Qed.

Lemma assign_scaled_x_lengths (s : StandardScaler) (ddf : list DataFrame) :
  map (@length SRow) (assign_scaled_x s ddf) = map (@length Row) ddf.
Proof.
  unfold assign_scaled_x. rewrite map_map. apply map_ext.
  intros df. apply length_map.
Qed.

(** C10: whatever rows the sample draws, the 40 training rows are cut into
    exactly two partitions, of 32 and 8 rows, and the 10 validation rows are
    one partition; so no partition has more than [batch_size = 32] rows, and
    the batch arrays built from a training partition for the update step and
    for the gradient task have at most 32 rows. *)
Theorem C10_partitions_within_batch_size (locs : list nat) :
  valid_draw train_frac df_all locs ->
  map (@length SRow) (ddf_train locs) = [32; 8]%nat /\
  length (partitions (ddf_train locs)) = 2%nat /\
  Forall (fun df =>
            (length df <= batch_size)%nat /\
            (length (column_values scaled_x df) <= batch_size)%nat /\
            (length (column_values (fun r => y_col (base r)) df) <= batch_size)%nat)
         (ddf_train locs) /\
  exists validation,
    ddf_validation locs = Some validation /\
    map (@length SRow) validation = [10%nat] /\
    Forall (fun df =>
              (length df <= batch_size)%nat /\
              (length (column_values scaled_x df) <= batch_size)%nat)
           validation.
Proof.
  intros Hdraw.
  destruct (split_shapes locs Hdraw) as [Hval [Htake [Hperm Hlt]]].
  set (validation :=
         filter (fun r => negb (mem_nat (idx r) (map idx (df_train locs)))) df_all) in *.
  assert (Hnd : NoDup (map idx (df_train locs)))
    by (rewrite Htake; apply Hdraw).
  assert (Hlv : length validation = 10%nat).
  { apply Permutation_length in Hperm.
    rewrite length_app, length_df_all, Hlt in Hperm. lia. }
  assert (Htrain : map (@length SRow) (ddf_train locs) = [32; 8]%nat).
  { unfold ddf_train. rewrite assign_scaled_x_lengths.
    apply dd_from_pandas_40; assumption. }
  assert (Hsizes : forall ddf : list SDataFrame,
             Forall (fun n => (n <= batch_size)%nat) (map (@length SRow) ddf) ->
             Forall (fun df =>
                       (length df <= batch_size)%nat /\
                       (length (column_values scaled_x df) <= batch_size)%nat /\
                       (length (column_values (fun r => y_col (base r)) df)
                        <= batch_size)%nat) ddf).
  { intros ddf H. rewrite Forall_map in H. revert H. apply Forall_impl.
    intros df Hdf. unfold column_values. rewrite !length_map. auto. }
  split; [exact Htrain|]. split; [|split].
  - unfold partitions. rewrite length_combine, length_seq, Nat.min_id.
    rewrite <- (length_map (@length SRow)), Htrain. reflexivity.
  - apply Hsizes. rewrite Htrain. unfold batch_size.
    repeat constructor; lia.
  - unfold ddf_validation. rewrite Hval. simpl. eexists. split; [reflexivity|].
    assert (Hv : map (@length SRow)
                   (assign_scaled_x (scaler locs) (dd_from_pandas validation batch_size))
                 = [10%nat]).
    { rewrite assign_scaled_x_lengths. apply dd_from_pandas_10. exact Hlv. }
    split; [exact Hv|].
    eapply Forall_impl; [|apply Hsizes; rewrite Hv; unfold batch_size;
                          repeat constructor; lia].
    intros df [H1 [H2 _]]. split; assumption.
Qed.

(** ** The network *)

Section NotebookProperties.

Context {L : Libraries}.

(** When the network is applied (no key sequence), the module number [k]
    reads the parameters at place [k]. *)
Lemma hk_Linear_applied (n : nat) (inputs : matrix) (ps : Params) (k : nat) :
  hk_Linear n inputs (mkFrame ps k None)
  = (linear_forward n (nth k ps (mkLinear [] [])) inputs, mkFrame ps (S k) None).
Proof.
  unfold hk_Linear. cbn [frame_params frame_modules frame_rng].
  destruct (nth_error ps k) as [p|] eqn:Hnth.
  - rewrite (nth_error_nth _ _ _ Hnth). reflexivity.
  - rewrite nth_overflow by (apply nth_error_None; exact Hnth). reflexivity.
Qed.

(** The applied network, layer by layer. *)
Lemma net_applied (params : Params) (inputs : matrix) :
  apply net_transform params inputs
  = linear_forward 1 (nth 3 params (mkLinear [] []))
      (mat_map (fun a => Rmax a 0)
         (linear_forward 50 (nth 2 params (mkLinear [] []))
            (mat_map (fun a => Rmax a 0)
               (linear_forward 100 (nth 1 params (mkLinear [] []))
                  (mat_map (fun a => Rmax a 0)
                     (linear_forward 50 (nth 0 params (mkLinear [] [])) inputs)))))).
Proof.
  unfold net_transform, hk_transform, apply, net_function, hk_Sequential,
    jax_nn_relu, bind, ret.
  rewrite !hk_Linear_applied. reflexivity.
Qed.

(** The applied network works row by row: the rows of its result are its
    results on the rows, each taken as a batch of one. *)
Lemma net_rowwise (params : Params) (inputs : matrix) :
  apply net_transform params inputs
  = flat_map (fun row => apply net_transform params [row]) inputs.
Proof.
  rewrite net_applied. unfold linear_forward, mat_map. rewrite !map_map.
  induction inputs as [|row inputs IH]; [reflexivity|].
  cbn [map flat_map]. rewrite IH, net_applied.
  unfold linear_forward, mat_map. cbn [map app]. reflexivity.
Qed.

(** The result of the network is a column: one entry per row. *)
Lemma net_column (params : Params) (inputs : matrix) :
  exists v : vector,
    length v = length inputs /\
    apply net_transform params inputs = map (fun a => [a]) v.
Proof.
  rewrite net_applied.
  set (h := mat_map _ _).
  assert (Hh : length h = length inputs).
  { unfold h, mat_map, linear_forward. rewrite !length_map. reflexivity. }
  rewrite <- Hh. clearbody h. clear Hh.
  unfold linear_forward. cbn [seq map].
  exists (map (fun row => dot row (column 0 (w (nth 3 params (mkLinear [] []))))
                          + nth 0 (b (nth 3 params (mkLinear [] []))) 0) h).
  split; [apply length_map|]. rewrite map_map. reflexivity.
Qed.

Lemma flatten_column (v : vector) : flatten (map (fun a => [a]) v) = v.
Proof.
  unfold flatten. induction v as [|a v IH]; [reflexivity|].
  simpl. rewrite IH. reflexivity.
Qed.

(** C8: the prediction wrapper returns a flat array with exactly one
    prediction per row of the partition; the prediction of a row is what the
    network, with the supplied parameters, returns on that row's scaled_x
    value; it is the same whatever the raw x, the y and the label of the rows
    are; and scaled_x is the standardised feature, the raw x minus the mean
    over the deviation of the scaler. *)
Theorem C8_prediction_per_row_from_scaled_x (df : SDataFrame) (params : Params) :
  length (dask_predict_wrapper df params) = length df /\
  Forall2 (fun r p => predict params [[scaled_x r]] = [[p]])
          df (dask_predict_wrapper df params) /\
  dask_predict_wrapper df params
    = flatten (apply net_transform params (column_values scaled_x df)) /\
  (forall other : Row -> Row,
      dask_predict_wrapper (map (fun r => mkSRow (other (base r)) (scaled_x r)) df) params
      = dask_predict_wrapper df params) /\
  (forall (s : StandardScaler) (ddf : list DataFrame),
      Forall (Forall (fun r => scaled_x r = (x_col (base r) - mean_ s) / scale_ s))
             (assign_scaled_x s ddf)).
Proof.
  assert (Hrow : forall d : SDataFrame,
             dask_predict_wrapper d params
             = flat_map (fun r => flatten (apply net_transform params [[scaled_x r]])) d).
  { intros d. unfold dask_predict_wrapper, predict, jax_jit.
    rewrite net_rowwise. unfold column_values, flatten.
    induction d as [|r d IH]; [reflexivity|].
    cbn [map flat_map]. rewrite concat_app, IH. reflexivity. }
  assert (Hone : forall r : SRow, exists p,
             apply net_transform params [[scaled_x r]] = [[p]]).
  { intros r. destruct (net_column params [[scaled_x r]]) as [v [Hlen Hv]].
    destruct v as [|p [|q v]]; try discriminate. exists p. exact Hv. }
  split; [|split; [|split; [|split]]].
  - rewrite Hrow. induction df as [|r df IH]; [reflexivity|].
    cbn [flat_map]. destruct (Hone r) as [p Hp]. rewrite Hp, length_app, IH.
    reflexivity.
  - rewrite Hrow. unfold predict, jax_jit.
    induction df as [|r df IH]; [constructor|].
    cbn [flat_map]. destruct (Hone r) as [p Hp]. rewrite Hp.
    change (flatten [[p]]) with [p]. cbn [app].
    constructor; [exact Hp | exact IH].
  - reflexivity.
  - intros other. rewrite !Hrow.
    induction df as [|r df IH]; [reflexivity|].
    cbn [map flat_map scaled_x]. rewrite IH. reflexivity.
  - intros s ddf. unfold assign_scaled_x.
    apply Forall_forall. intros d Hd. apply in_map_iff in Hd.
    destruct Hd as [d0 [Hd0 _]]. subst d.
    apply Forall_forall. intros r Hr. apply in_map_iff in Hr.
    destruct Hr as [r0 [Hr0 _]]. subst r. reflexivity.
Qed.

(** ** The loss *)

Lemma column_shape (m : matrix) :
  Forall (fun row => length row = 1%nat) m -> m = map (fun a => [a]) (flatten m).
Proof.
  unfold flatten. induction 1 as [|row m Hrow _ IH]; [reflexivity|].
  destruct row as [|a [|c row]]; try discriminate.
  simpl. rewrite <- IH. reflexivity.
Qed.

Lemma length_map2 {A B C : Type} (f : A -> B -> C) (u : list A) (v : list B) :
  length u = length v -> length (map2 f u v) = length u.
Proof.
  intros Hlen. unfold map2. rewrite length_map, length_combine. lia.
Qed.

(** Elementwise operations on two columns, entry by entry. *)
Lemma columns_elementwise (f : R -> R) (g : R -> R -> R) (u v : vector) :
  mat_map f (mat_map2 g (map (fun a => [a]) u) (map (fun a => [a]) v))
  = map (fun a => [a]) (map2 (fun a c => f (g a c)) u v).
Proof.
  unfold mat_map, mat_map2, map2. revert v.
  induction u as [|a u IH]; intros [|c v]; try reflexivity.
  simpl. rewrite IH. reflexivity.
Qed.

(** C5: on a batch of inputs and a column of as many targets, the loss is
    the mean squared error: the sum over the batch of the squared differences
    between the target and the prediction of the network (the transformed
    network applied to the inputs with the given parameters), divided by the
    number of samples of the batch. *)
Theorem C5_loss_is_mean_squared_error (params : Params) (x y_true : matrix) :
  length y_true = length x ->
  Forall (fun row => length row = 1%nat) y_true ->
  loss_function params x y_true
  = Rsum (map2 (fun t p => (t - p) ^ 2)
               (flatten y_true) (flatten (apply net_transform params x)))
    / INR (length x).
Proof.
  intros Hlen Hcol.
  unfold loss_function, jax_jit, mean_squared_error, jnp_average.
  destruct (net_column params x) as [v [Hv Hpred]].
  rewrite Hpred. clear Hpred.
  pose proof (column_shape y_true Hcol) as Hy.
  set (t := flatten y_true) in *. clearbody t. subst y_true.
  rewrite length_map in Hlen.
  rewrite columns_elementwise, !flatten_column.
  rewrite length_map2 by congruence.
  rewrite Hlen. reflexivity.
Qed.

(** ** Initialisation *)

(** When the network is initialised, a module that has no parameters yet
    creates them from the width of its inputs and the next key. *)
Lemma hk_Linear_created (n : nat) (inputs : matrix) (ps : Params) (k : nat) (rng : Key) :
  k = length ps ->
  hk_Linear n inputs (mkFrame ps k (Some rng))
  = (linear_forward n
       (linear_created (snd (jax_random_split rng)) (ncols inputs) n) inputs,
     mkFrame (ps ++ [linear_created (snd (jax_random_split rng)) (ncols inputs) n])
             (S k) (Some (fst (jax_random_split rng)))).
Proof.
  intros Hk. unfold hk_Linear. cbn [frame_params frame_modules frame_rng].
  replace (nth_error ps k) with (@None LinearParams)
    by (symmetry; apply nth_error_None; lia).
  destruct (jax_random_split rng) as [rng' subkey]. reflexivity.
Qed.

Lemma layer_nonempty (n : nat) (p : LinearParams) (f : R -> R) (inputs : matrix) :
  inputs <> [] -> mat_map f (linear_forward n p inputs) <> [].
Proof. destruct inputs; [congruence | discriminate]. Qed.

Lemma ncols_layer (n : nat) (p : LinearParams) (f : R -> R) (inputs : matrix) :
  inputs <> [] -> ncols (mat_map f (linear_forward n p inputs)) = n.
Proof.
  destruct inputs as [|row rest]; [congruence|]. intros _.
  unfold ncols, mat_map, linear_forward. cbn [map hd].
  rewrite !length_map, length_seq. reflexivity.
Qed.

(** The parameters created on a batch with at least one row: four layers,
    whose shapes are fixed by the width of the batch and by the network, and
    whose entries are drawn with the keys split off the initial key. *)
Lemma init_explicit (rng : Key) (row : vector) (rest : matrix) :
  let k1 := fst (jax_random_split rng) in
  let k2 := fst (jax_random_split k1) in
  let k3 := fst (jax_random_split k2) in
  init net_transform rng (row :: rest)
  = [ linear_created (snd (jax_random_split rng)) (length row) 50;
      linear_created (snd (jax_random_split k1)) 50 100;
      linear_created (snd (jax_random_split k2)) 100 50;
      linear_created (snd (jax_random_split k3)) 50 1 ].
Proof.
  intros k1 k2 k3.
  assert (Hne : row :: rest <> []) by discriminate.
  unfold net_transform, hk_transform, init, net_function, hk_Sequential,
    jax_nn_relu, bind, ret.
  rewrite !hk_Linear_created by reflexivity.
  cbn [snd frame_params app].
  rewrite !ncols_layer by (repeat apply layer_nonempty; exact Hne).
  reflexivity.
Qed.

(** Every call of [initialize_net_function] returns the parameters created
    from the key 42 on a batch of one feature. *)
Lemma initialize_net_function_params (s : NpRandomState) :
  snd (fst (initialize_net_function s))
  = init net_transform (jax_random_PRNGKey 42) [[0]].
Proof.
  unfold initialize_net_function, np_random_random, tabulate.
  cbn [fst snd]. fold net_transform.
  change (seq 0 batch_size) with (0%nat :: seq 1 31). cbn [map seq].
  rewrite !init_explicit. reflexivity.
Qed.

Lemma cell_initialize_run (g : Globals) :
  cell_initialize g
  = (tt, mkGlobals (init net_transform (jax_random_PRNGKey 42) [[0]])
                   (opt_state g)
                   (np_random_next (np_state g) (batch_size, 1%nat))
                   (trace g)).
Proof.
  unfold cell_initialize, bind, get.
  pose proof (initialize_net_function_params (np_state g)) as Hp.
  destruct (initialize_net_function (np_state g)) as [[t p] s'] eqn:Hinit.
  cbn [fst snd] in Hp. subst p.
  assert (Hs : s' = np_random_next (np_state g) (batch_size, 1%nat)).
  { unfold initialize_net_function, np_random_random in Hinit.
    inversion Hinit. reflexivity. }
  subst s'. reflexivity.
Qed.

Lemma reset_run (g : Globals) :
  (_ <- cell_initialize ;; cell_optimizer_init) g
  = (tt, mkGlobals (init net_transform (jax_random_PRNGKey 42) [[0]])
                   (init_fn optimizer (init net_transform (jax_random_PRNGKey 42) [[0]]))
                   (np_random_next (np_state g) (batch_size, 1%nat))
                   (trace g)).
Proof.
  unfold bind at 1. rewrite cell_initialize_run. reflexivity.
Qed.

Lemma before_case2_run (ddf_train : list SDataFrame) (g : Globals) :
  exists s tr,
    before_case2 ddf_train g
    = (tt, mkGlobals (init net_transform (jax_random_PRNGKey 42) [[0]])
                     (init_fn optimizer (init net_transform (jax_random_PRNGKey 42) [[0]]))
                     s tr).
Proof.
  unfold before_case2. unfold bind at 1.
  destruct (before_case1 g) as [u0 g0]. unfold bind at 1.
  destruct (train_case1 ddf_train g0) as [u1 g1].
  rewrite reset_run. eexists. eexists. reflexivity.
Qed.

(** C9: [initialize_net_function] returns the same parameters at every
    call, whatever the state of the generator that draws the example input:
    the key is 42 and of the example input only the width matters (any two
    batches of one feature give the same parameters).  So after the reset,
    CASE 2 starts from the parameters and the optimizer state from which
    CASE 1 started. *)
Theorem C9_initialisation_is_deterministic
  (s1 s2 : NpRandomState) (ddf_train : list SDataFrame) :
  snd (fst (initialize_net_function s1)) = snd (fst (initialize_net_function s2)) /\
  (forall (a c : R) (m1 m2 : matrix),
      init net_transform (jax_random_PRNGKey 42) ([a] :: m1)
      = init net_transform (jax_random_PRNGKey 42) ([c] :: m2)) /\
  params (snd (before_case2 ddf_train (fresh_kernel s1)))
    = params (snd (before_case1 (fresh_kernel s1))) /\
  opt_state (snd (before_case2 ddf_train (fresh_kernel s1)))
    = opt_state (snd (before_case1 (fresh_kernel s1))) /\
  opt_state (snd (before_case2 ddf_train (fresh_kernel s1)))
    = init_fn optimizer (params (snd (before_case2 ddf_train (fresh_kernel s1)))).
Proof.
  split; [rewrite !initialize_net_function_params; reflexivity|].
  split; [intros a c m1 m2; rewrite !init_explicit; reflexivity|].
  destruct (before_case2_run ddf_train (fresh_kernel s1)) as [s [tr Hrun]].
  rewrite Hrun. unfold before_case1. rewrite reset_run.
  cbn [snd params opt_state]. repeat split; reflexivity.
Qed.

(** ** The update step *)

(** C4: the update step returns the pair made of the parameters with the
    updates applied and of the new optimizer state, the updates and the new
    state being what the optimizer's update rule makes of the gradient of the
    loss at (params, x, y) and of the current optimizer state.  The rule is
    Adam's: both moments move towards the gradient and its square, the step
    count grows by one, and the updates are the bias-corrected first moment
    over the root of the second, times minus the learning rate. *)
Theorem C4_update_step
  (params : Params) (opt_state : OptState) (x y : matrix) :
  let grads := jax_grad loss_function params x y in
  let transformed := update_fn optimizer grads opt_state in
  let t := (count (fst opt_state) + 1)%nat in
  let mu' := update_moment grads (mu (fst opt_state)) (9 / 10) 1 in
  let nu' := update_moment grads (nu (fst opt_state)) (999 / 1000) 2 in
  let mu_hat := tree_map (fun a => a / (1 - (9 / 10) ^ t)) mu' in
  let nu_hat := tree_map (fun a => a / (1 - (999 / 1000) ^ t)) nu' in
  update params opt_state x y
    = (optix_apply_updates params (fst transformed), snd transformed) /\
  snd transformed = (mkAdamState t mu' nu', tt) /\
  fst transformed
    = tree_map (fun g => - (1 / 1000) * g)
        (tree_multimap (fun m v => m / (sqrt v + 1 / 100000000)) mu_hat nu_hat).
Proof.
  intros grads transformed t mu' nu' mu_hat nu_hat. split.
  - unfold update, jax_jit. fold grads. fold transformed.
    destruct transformed as [updates opt_state']. reflexivity.
  - destruct opt_state as [adam []]. split; reflexivity.
Qed.

(** ** Loops *)

Lemma for_each_cons {S A : Type} (a : A) (l : list A) (body : A -> State S unit) (s : S) :
  for_each (a :: l) body s = for_each l body (snd (body a s)).
Proof. cbn [for_each]. unfold bind. destruct (body a s). reflexivity. Qed.

Lemma for_each_app {S A : Type} (l1 l2 : list A) (body : A -> State S unit) (s : S) :
  for_each (l1 ++ l2) body s = for_each l2 body (snd (for_each l1 body s)).
Proof.
  revert s. induction l1 as [|a l1 IH]; intros s; [reflexivity|].
  rewrite <- app_comm_cons, !for_each_cons. apply IH.
Qed.

(** A loop over epochs whose body is a loop over the same list is one loop
    over that list repeated. *)
Lemma for_each_nested {S A : Type} (k n : nat) (l : list A)
  (body : A -> State S unit) (s : S) :
  for_each (seq k n) (fun _ => for_each l body) s
  = for_each (concat (repeat l n)) body s.
Proof.
  revert k s. induction n as [|n IH]; intros k s; [reflexivity|].
  cbn [seq repeat concat]. rewrite for_each_cons, for_each_app. apply IH.
Qed.

Lemma flat_map_repeat {A B : Type} (f : A -> list B) (l : list A) (n : nat) :
  flat_map f (concat (repeat l n)) = concat (repeat (flat_map f l) n).
Proof.
  induction n as [|n IH]; [reflexivity|].
  cbn [repeat concat]. rewrite flat_map_app, IH. reflexivity.
Qed.

Lemma map_repeat_concat {A B : Type} (f : A -> B) (l : list A) (n : nat) :
  map f (concat (repeat l n)) = concat (repeat (map f l) n).
Proof.
  induction n as [|n IH]; [reflexivity|].
  cbn [repeat concat]. rewrite map_app, IH. reflexivity.
Qed.

Lemma partitions_snd (ddf : list SDataFrame) : map snd (partitions ddf) = ddf.
Proof. unfold partitions. apply map_snd_combine. apply length_seq. Qed.

(** ** CASE 1 *)

Lemma train_case1_body_run (part : nat * SDataFrame) (g : Globals) :
  train_case1_body part g
  = (tt, mkGlobals
           (fst (update_on (params g, opt_state g) (batch_arrays (snd part))))
           (snd (update_on (params g, opt_state g) (batch_arrays (snd part))))
           (np_state g)
           (trace g ++ case1_events part)).
Proof.
  unfold train_case1_body, dask_compute, bind, ret, get, log, update_on, batch_arrays,
    case1_events.
  cbn [fst snd params opt_state np_state trace].
  destruct (update _ _ _ _) as [p o].
  unfold set_params, set_opt_state. cbn [fst snd params opt_state np_state trace].
  rewrite <- app_assoc. reflexivity.
Qed.

Lemma case1_loop_run (parts : list (nat * SDataFrame)) (g : Globals) :
  let g' := snd (for_each parts train_case1_body g) in
  (params g', opt_state g')
    = fold_left update_on (map (fun part => batch_arrays (snd part)) parts)
                (params g, opt_state g) /\
  trace g' = trace g ++ flat_map case1_events parts.
Proof.
  revert g. induction parts as [|part parts IH]; intros g.
  - cbn. rewrite app_nil_r. split; reflexivity.
  - cbn zeta. rewrite for_each_cons, train_case1_body_run. cbn [snd].
    destruct (IH (mkGlobals
           (fst (update_on (params g, opt_state g) (batch_arrays (snd part))))
           (snd (update_on (params g, opt_state g) (batch_arrays (snd part))))
           (np_state g)
           (trace g ++ case1_events part))) as [IH1 IH2].
    cbn [params opt_state trace] in IH1, IH2. cbn zeta in IH1, IH2.
    rewrite IH1, IH2. cbn [map fold_left flat_map].
    rewrite <- surjective_pairing, <- app_assoc. split; reflexivity.
Qed.

(** C3: the CASE 1 loop starts from the freshly initialised parameters and
    optimizer state and leaves the left fold of the update step over the
    training batches, one partition after the other in partition order, the
    whole sequence 200 times over.  The client loads the partitions one at a
    time: every load of a partition is followed at once by the one update that
    consumes the two columns of that partition, and nothing else happens. *)
Theorem C3_case1_is_fold_of_update (s : NpRandomState) (ddf_train : list SDataFrame) :
  let g0 := snd (before_case1 (fresh_kernel s)) in
  let g := snd (train_case1 ddf_train g0) in
  params g0 = snd (fst (initialize_net_function s)) /\
  opt_state g0 = init_fn optimizer (params g0) /\
  (params g, opt_state g)
    = fold_left update_on (concat (repeat (map batch_arrays ddf_train) 200))
                (params g0, opt_state g0) /\
  trace g = concat (repeat (flat_map case1_events (partitions ddf_train)) 200).
Proof.
  intros g0 g.
  assert (Hg0 : g0 = mkGlobals (init net_transform (jax_random_PRNGKey 42) [[0]])
                   (init_fn optimizer (init net_transform (jax_random_PRNGKey 42) [[0]]))
                   (np_random_next s (batch_size, 1%nat)) []).
  { unfold g0, before_case1. rewrite reset_run. reflexivity. }
  split; [rewrite Hg0, initialize_net_function_params; reflexivity|].
  split; [rewrite Hg0; reflexivity|].
  unfold g, train_case1, num_epochs. rewrite for_each_nested.
  destruct (case1_loop_run (concat (repeat (partitions ddf_train) 200)) g0) as [H1 H2].
  cbn zeta in H1, H2. rewrite H1, H2.
  rewrite <- (map_map snd batch_arrays), map_repeat_concat, partitions_snd,
    map_repeat_concat, flat_map_repeat.
  split; [reflexivity|]. rewrite Hg0. reflexivity.
Qed.

(** ** CASE 2: the scheduler *)

Lemma remove_nth_perm {A : Type} (i : nat) (l : list A) (d : A) :
  (i < length l)%nat -> Permutation (nth i l d :: remove_nth i l) l.
Proof.
  revert i. induction l as [|a l IH]; intros i Hi; [simpl in Hi; lia|].
  destruct i as [|i]; [reflexivity|].
  cbn [nth remove_nth]. rewrite perm_swap. constructor.
  apply IH. simpl in Hi. lia.
Qed.

Lemma remove_nth_length {A : Type} (i : nat) (l : list A) :
  (i < length l)%nat -> S (length (remove_nth i l)) = length l.
Proof.
  revert i. induction l as [|a l IH]; intros i Hi; [simpl in Hi; lia|].
  destruct i as [|i]; [reflexivity|].
  cbn [remove_nth length]. rewrite IH; [reflexivity | simpl in Hi; lia].
Qed.

(** Every future completes exactly once, with the result of its task. *)
Lemma completion_perm (fuel : nat) (picks : nat -> nat) (k : nat) (pending : list Future) :
  (length pending <= fuel)%nat ->
  Permutation (map fst (completion fuel picks k pending)) pending /\
  Forall (fun c => snd c = future_result (fst c)) (completion fuel picks k pending).
Proof.
  revert k pending. induction fuel as [|fuel IH]; intros k pending Hfuel.
  - destruct pending; [split; constructor | simpl in Hfuel; lia].
  - destruct pending as [|f0 rest]; [split; constructor|].
    cbn [completion]. set (pending := f0 :: rest) in *.
    assert (Hi : (picks k mod length pending < length pending)%nat)
      by (apply Nat.mod_upper_bound; discriminate).
    pose proof (remove_nth_length _ _ Hi) as Hlen.
    destruct (IH (S k) (remove_nth (picks k mod length pending) pending)) as [IH1 IH2];
      [lia|].
    split.
    + cbn [map fst]. rewrite IH1. apply remove_nth_perm. exact Hi.
    + constructor; [reflexivity | exact IH2].
Qed.

Lemma completion_ext (fuel : nat) (picks1 picks2 : nat -> nat) (k : nat)
  (pending : list Future) :
  (forall j, (k <= j)%nat -> picks1 j = picks2 j) ->
  completion fuel picks1 k pending = completion fuel picks2 k pending.
Proof.
  revert k pending. induction fuel as [|fuel IH]; intros k pending Hext; [reflexivity|].
  destruct pending as [|f0 rest]; [reflexivity|].
  cbn [completion]. rewrite (Hext k) by lia.
  f_equal. apply IH. intros j Hj. apply Hext. lia.
Qed.

(** The oracle can produce every order of completion. *)
Lemma completion_any_order (order pending : list Future) (k : nat) :
  Permutation order pending ->
  exists picks,
    completion (length pending) picks k pending
    = map (fun f => (f, future_result f)) order.
Proof.
  revert pending k. induction order as [|f order IH]; intros pending k Hperm.
  - apply Permutation_nil in Hperm. subst. exists (fun _ => 0%nat). reflexivity.
  - assert (Hin : In f pending) by (apply (Permutation_in _ Hperm); left; reflexivity).
    destruct pending as [|f0 rest]; [contradiction|].
    destruct (In_nth _ _ f0 Hin) as [i [Hi Hnth]].
    assert (Hrest : Permutation order (remove_nth i (f0 :: rest))).
    { apply (Permutation_cons_inv (a := f)).
      rewrite Hperm, <- Hnth. symmetry. apply remove_nth_perm. exact Hi. }
    destruct (IH _ (S k) Hrest) as [picks' Hpicks'].
    exists (fun j => if (j =? k)%nat then i else picks' j).
    pose proof (remove_nth_length _ _ Hi) as Hlen.
    rewrite <- Hlen. cbn [completion].
    rewrite Nat.eqb_refl, (Nat.mod_small _ _ Hi), Hnth.
    cbn [map]. f_equal. rewrite <- Hpicks'.
    apply completion_ext. intros j Hj.
    destruct (j =? k)%nat eqn:Hjk; [apply Nat.eqb_eq in Hjk; lia | reflexivity].
Qed.

(** ** CASE 2: one epoch *)

Lemma submit_all_run (parts : list (nat * SDataFrame)) (futures : list Future) (g : Globals) :
  submit_all parts futures g
  = (futures ++ map (fun part => mkFuture part (params g)) parts,
     mkGlobals (params g) (opt_state g) (np_state g)
               (trace g ++ map (fun part => EvSubmit (fst part) (params g)) parts)).
Proof.
  revert futures g. induction parts as [|part parts IH]; intros futures g.
  - cbn. rewrite !app_nil_r. destruct g; reflexivity.
  - cbn [submit_all].
    cbv beta iota delta [bind get client_submit log ret]. rewrite IH.
    cbn [params opt_state np_state trace fst snd map].
    rewrite <- !app_assoc. reflexivity.
Qed.

Lemma aggregate_body_run (completed : Future * Params) (g : Globals) :
  aggregate_body completed g
  = (tt, mkGlobals
           (fst (client_step (params g, opt_state g) (snd completed)))
           (snd (client_step (params g, opt_state g) (snd completed)))
           (np_state g)
           (trace g ++ [EvOptimizerUpdate (snd completed);
                        EvApplyUpdates
                          (fst (update_fn optimizer (snd completed) (opt_state g)))])).
Proof.
  unfold aggregate_body, client_step, bind, get, log.
  cbn [fst snd params opt_state np_state trace].
  destruct (update_fn optimizer (snd completed) (opt_state g)) as [u o].
  unfold set_opt_state, set_params, log.
  cbn [fst snd params opt_state np_state trace].
  rewrite <- app_assoc. reflexivity.
Qed.

(** The second inner loop: the client's step folded over the gradients in
    the order of completion, two events per gradient. *)
Lemma aggregate_run (completed : list (Future * Params)) (g : Globals) :
  let g' := snd (for_each completed aggregate_body g) in
  (params g', opt_state g')
    = fold_left client_step (map snd completed) (params g, opt_state g) /\
  exists updates,
    length updates = length completed /\
    trace g'
    = trace g ++ flat_map (fun gu => [EvOptimizerUpdate (fst gu); EvApplyUpdates (snd gu)])
                          (combine (map snd completed) updates).
Proof.
  revert g. induction completed as [|c completed IH]; intros g.
  - cbn. split; [reflexivity|]. exists []. rewrite app_nil_r. split; reflexivity.
  - cbn zeta. rewrite for_each_cons, aggregate_body_run. cbn [snd].
    match goal with |- context [for_each completed aggregate_body ?g1] =>
      destruct (IH g1) as [IH1 [updates [Hlen IH2]]] end.
    cbn zeta in IH1, IH2. cbn [params opt_state trace] in IH1, IH2.
    rewrite IH1, IH2. cbn [map fold_left].
    rewrite <- surjective_pairing. split; [reflexivity|].
    exists (fst (update_fn optimizer (snd c) (opt_state g)) :: updates).
    split; [cbn [length]; rewrite Hlen; reflexivity|].
    cbn [combine flat_map fst snd]. rewrite <- app_assoc. reflexivity.
Qed.

Lemma for_each_seq_S {St : Type} (e : nat) (body : nat -> State St unit) (s : St) :
  snd (for_each (seq 0 (S e)) body s) = snd (body e (snd (for_each (seq 0 e) body s))).
Proof.
  rewrite seq_S, for_each_app, for_each_cons. reflexivity.
Qed.

Lemma train_case2_epoch_run (picks : nat -> nat) (ddf_train : list SDataFrame) (g : Globals) :
  train_case2_epoch picks ddf_train g
  = for_each
      (as_completed picks (map (fun part => mkFuture part (params g)) (partitions ddf_train)))
      aggregate_body
      (mkGlobals (params g) (opt_state g) (np_state g)
         (trace g ++ map (fun part => EvSubmit (fst part) (params g))
                         (partitions ddf_train))).
Proof.
  unfold train_case2_epoch, bind. rewrite submit_all_run. reflexivity.
Qed.

(** The first inner loop on the cluster: the client's side is the loop of
    the notebook, and every task is run by the worker it is assigned to. *)
Lemma cluster_submit_all_run (assign : nat -> nat) (parts : list (nat * SDataFrame))
  (futures : list Future) (d : Distributed) :
  cluster_submit_all assign parts futures d
  = (fst (submit_all parts futures (client_side d)),
     mkDistributed
       (snd (submit_all parts futures (client_side d)))
       (worker_side d
          ++ map (fun part => worker_run (assign (fst part))
                                (mkFuture part (params (client_side d)))) parts)).
Proof.
  revert futures d. induction parts as [|part parts IH]; intros futures d.
  - cbn. rewrite app_nil_r. destruct d. reflexivity.
  - cbn [cluster_submit_all submit_all].
    cbv beta iota delta [bind on_client get cluster_submit client_submit log ret].
    rewrite IH. cbn [client_side worker_side params fst snd map].
    rewrite <- app_assoc. reflexivity.
Qed.

(** One epoch on the cluster: the client's side is the epoch of the
    notebook's loop; the workers run one task per partition. *)
Lemma train_case2_epoch_on_cluster_run (assign picks : nat -> nat)
  (ddf_train : list SDataFrame) (d : Distributed) :
  train_case2_epoch_on_cluster assign picks ddf_train d
  = (tt,
     mkDistributed
       (snd (train_case2_epoch picks ddf_train (client_side d)))
       (worker_side d
          ++ map (fun part => worker_run (assign (fst part))
                                (mkFuture part (params (client_side d))))
                 (partitions ddf_train))).
Proof.
  unfold train_case2_epoch_on_cluster, train_case2_epoch.
  unfold bind at 1. rewrite cluster_submit_all_run.
  unfold bind at 1. unfold on_client. cbn [client_side worker_side].
  destruct (submit_all (partitions ddf_train) [] (client_side d)) as [futures g1].
  cbn [fst snd].
  destruct (for_each (as_completed picks futures) aggregate_body g1) as [[] g2].
  reflexivity.
Qed.

(** C1: the CASE 2 loop runs 200 epochs.  In every epoch one gradient task
    per partition is submitted, all of them with the parameters that the model
    has at the start of the epoch and before the client does anything else.
    The tasks run on the workers of the cluster: the worker that the scheduler
    assigns to a task computes the gradient of the loss function, by
    [jax.grad], at those parameters on the batch of its partition, and the
    client computes no gradient.  Every task completes exactly once, in the
    order the scheduler decides, with the result its worker holds.  The client
    then folds its step over the gradients in the order of completion, one
    optimizer update and one application of the updates per gradient, and does
    nothing else. *)
Theorem C1_case2_epoch
  (assignment scheduler : nat -> nat -> nat) (ddf_train : list SDataFrame)
  (d_start : Distributed) (epoch_number : nat) :
  let epoch := fun n =>
    train_case2_epoch_on_cluster (assignment n) (scheduler n) ddf_train in
  let d := snd (for_each (seq 0 epoch_number) epoch d_start) in
  let d' := snd (for_each (seq 0 (S epoch_number)) epoch d_start) in
  let g := client_side d in
  let g' := client_side d' in
  let futures := map (fun part => mkFuture part (params g)) (partitions ddf_train) in
  let completed := as_completed (scheduler epoch_number) futures in
  let gradient := fun part : nat * SDataFrame =>
    jax_grad loss_function (params g)
      (column_values scaled_x (snd part))
      (column_values (fun r => y_col (base r)) (snd part)) in
  train_case2_on_cluster assignment scheduler ddf_train = for_each (seq 0 200) epoch /\
  g' = snd (train_case2_epoch (scheduler epoch_number) ddf_train g) /\
  worker_side d'
    = worker_side d
      ++ map (fun part =>
                mkTaskRun (assignment epoch_number (fst part))
                          (mkFuture part (params g)) (gradient part))
             (partitions ddf_train) /\
  Permutation (map fst completed) futures /\
  Forall (fun c =>
            task_params (fst c) = params g /\
            snd c = gradient (task_partition (fst c)) /\
            In (mkTaskRun (assignment epoch_number (fst (task_partition (fst c))))
                          (fst c) (snd c))
               (worker_side d'))
         completed /\
  (params g', opt_state g')
    = fold_left client_step (map snd completed) (params g, opt_state g) /\
  exists updates,
    length updates = length ddf_train /\
    trace g'
    = trace g
      ++ map (fun part => EvSubmit (fst part) (params g)) (partitions ddf_train)
      ++ flat_map (fun gu => [EvOptimizerUpdate (fst gu); EvApplyUpdates (snd gu)])
                  (combine (map snd completed) updates).
Proof.
  intros epoch d d' g g' futures completed gradient.
  assert (Hd' : d' = mkDistributed
                       (snd (train_case2_epoch (scheduler epoch_number) ddf_train g))
                       (worker_side d
                          ++ map (fun part =>
                                    mkTaskRun (assignment epoch_number (fst part))
                                              (mkFuture part (params g)) (gradient part))
                                 (partitions ddf_train))).
  { unfold d'. rewrite for_each_seq_S. fold d. unfold epoch.
    rewrite train_case2_epoch_on_cluster_run. reflexivity. }
  assert (Hg' : g' = snd (train_case2_epoch (scheduler epoch_number) ddf_train g))
    by (unfold g'; rewrite Hd'; reflexivity).
  assert (Hw : worker_side d'
               = worker_side d
                 ++ map (fun part =>
                           mkTaskRun (assignment epoch_number (fst part))
                                     (mkFuture part (params g)) (gradient part))
                        (partitions ddf_train))
    by (rewrite Hd'; reflexivity).
  destruct (completion_perm (length futures) (scheduler epoch_number) 0 futures
              (Nat.le_refl _)) as [Hperm Hres].
  fold (as_completed (scheduler epoch_number) futures) in Hperm, Hres.
  fold completed in Hperm, Hres.
  split; [reflexivity|]. split; [exact Hg'|]. split; [exact Hw|].
  split; [exact Hperm|]. split.
  - apply Forall_forall. intros c Hc.
    rewrite Forall_forall in Hres. rewrite (Hres c Hc).
    assert (Hf : In (fst c) futures)
      by (apply (Permutation_in _ Hperm), in_map, Hc).
    apply in_map_iff in Hf. destruct Hf as [part [Hpart Hin]].
    rewrite <- Hpart. split; [reflexivity|]. split; [reflexivity|].
    rewrite Hw. apply in_or_app. right.
    apply in_map_iff. exists part. split; [reflexivity | exact Hin].
  - rewrite train_case2_epoch_run in Hg'.
    fold futures in Hg'. fold completed in Hg'.
    match type of Hg' with _ = snd (for_each _ _ ?g1) =>
      destruct (aggregate_run completed g1) as [H1 [updates [Hlen H2]]] end.
    cbn zeta in H1, H2. cbn [params opt_state trace] in H1, H2.
    rewrite <- Hg' in H1, H2.
    split; [exact H1|]. exists updates. split.
    + rewrite Hlen, <- (length_map fst), (Permutation_length Hperm).
      unfold futures, partitions.
      rewrite length_map, length_combine, length_seq. apply Nat.min_id.
    + rewrite H2, <- app_assoc. reflexivity.
Qed.

End NotebookProperties.

(** ** CASE 2: the order of completion *)

Lemma map2_repeat {A B C : Type} (f : A -> B -> C) (a : A) (c : B) (n : nat) :
  map2 f (repeat a n) (repeat c n) = repeat (f a c) n.
Proof.
  unfold map2. induction n as [|n IH]; [reflexivity|].
  cbn [repeat combine map fst snd]. rewrite IH. reflexivity.
Qed.

Lemma tree_multimap_constant (f : R -> R -> R) (a c : R) :
  tree_multimap f (constant_tree a) (constant_tree c) = constant_tree (f a c).
Proof.
  unfold tree_multimap, constant_tree, mat_map2.
  unfold map2 at 1. cbn [combine map fst snd w b].
  rewrite !map2_repeat. reflexivity.
Qed.

Lemma tree_map_constant (f : R -> R) (c : R) :
  tree_map f (constant_tree c) = constant_tree (f c).
Proof.
  unfold tree_map, constant_tree, mat_map. cbn [map w b].
  rewrite !map_repeat. reflexivity.
Qed.

Lemma constant_tree_inj (a c : R) : constant_tree a = constant_tree c -> a = c.
Proof.
  intros H.
  apply (f_equal (fun t => nth 0 (b (nth 3 t (mkLinear [] []))) 0)) in H.
  exact H.
Qed.

(** Adam's first moment after one step of the client. *)
Lemma client_step_mu (st : Params * OptState) (grads : Params) :
  mu (fst (snd (client_step st grads)))
  = update_moment grads (mu (fst (snd st))) (9 / 10) 1.
Proof. reflexivity. Qed.

(** Adam's step count after the client has consumed a list of gradients. *)
Lemma client_steps_count (grads : list Params) (st : Params * OptState) :
  count (fst (snd (fold_left client_step grads st)))
  = (count (fst (snd st)) + length grads)%nat.
Proof.
  revert st. induction grads as [|g grads IH]; intros st.
  - cbn. lia.
  - cbn [fold_left length]. rewrite IH.
    change (count (fst (snd (client_step st g)))) with (count (fst (snd st)) + 1)%nat.
    lia.
Qed.

(** The claim of C2 fails: the two tasks above, completing in the one order
    or in the other, leave different optimizer states (Adam's first moment is
    0.29 everywhere in the one and 0.28 in the other). *)
Lemma C2_order_of_completion_matters :
  Permutation completed_ab completed_ba /\
  ~ (params (snd (for_each completed_ab aggregate_body example_globals))
       = params (snd (for_each completed_ba aggregate_body example_globals)) /\
     opt_state (snd (for_each completed_ab aggregate_body example_globals))
       = opt_state (snd (for_each completed_ba aggregate_body example_globals))).
Proof.
  split; [apply perm_swap|]. intros [_ Hopt].
  destruct (aggregate_run completed_ab example_globals) as [Hab _].
  destruct (aggregate_run completed_ba example_globals) as [Hba _].
  cbn zeta in Hab, Hba.
  apply (f_equal snd) in Hab, Hba. cbn [snd] in Hab, Hba.
  rewrite Hab, Hba in Hopt. clear Hab Hba.
  apply (f_equal (fun o => mu (fst o))) in Hopt.
  unfold completed_ab, completed_ba in Hopt.
  cbn [map snd fold_left] in Hopt.
  rewrite !client_step_mu in Hopt.
  change (mu (fst (snd (params example_globals, opt_state example_globals))))
    with (tree_map (fun _ => 0) (constant_tree 0)) in Hopt.
  unfold update_moment in Hopt.
  rewrite tree_map_constant, !tree_multimap_constant in Hopt.
  apply constant_tree_inj in Hopt. simpl pow in Hopt. lra.
Qed.

(** C2, amended: the parameters and the optimizer state at the end of the
    aggregation are the client's step folded over the gradients in the order
    in which the futures complete.  Two orders of completion of the same
    futures leave the same number of optimizer steps, and they leave the same
    parameters and optimizer state when they deliver the same sequence of
    gradients. *)
Theorem C2_aggregation_follows_completion_order
  (completed1 completed2 : list (Future * Params)) (g : Globals) :
  Permutation completed1 completed2 ->
  let g1 := snd (for_each completed1 aggregate_body g) in
  let g2 := snd (for_each completed2 aggregate_body g) in
  (params g1, opt_state g1)
    = fold_left client_step (map snd completed1) (params g, opt_state g) /\
  (params g2, opt_state g2)
    = fold_left client_step (map snd completed2) (params g, opt_state g) /\
  count (fst (opt_state g1)) = count (fst (opt_state g2)) /\
  (map snd completed1 = map snd completed2 ->
   params g1 = params g2 /\ opt_state g1 = opt_state g2).
Proof.
  intros Hperm g1 g2.
  destruct (aggregate_run completed1 g) as [H1 _].
  destruct (aggregate_run completed2 g) as [H2 _].
  cbn zeta in H1, H2. fold g1 in H1. fold g2 in H2.
  split; [exact H1|]. split; [exact H2|]. split.
  - change (opt_state g1) with (snd (params g1, opt_state g1)).
    change (opt_state g2) with (snd (params g2, opt_state g2)).
    rewrite H1, H2, !client_steps_count, !length_map.
    rewrite (Permutation_length Hperm). reflexivity.
  - intros Hsame. rewrite Hsame in H1. rewrite <- H2 in H1.
    inversion H1. split; reflexivity.
Qed.

Lemma C2_aggregation_follows_completion_order_witness :
  Permutation completed_ab completed_ba /\
  count (fst (opt_state (snd (for_each completed_ab aggregate_body example_globals))))
  = count (fst (opt_state (snd (for_each completed_ba aggregate_body example_globals)))).
Proof.
  split; [apply perm_swap|].
  apply (C2_aggregation_follows_completion_order completed_ab completed_ba example_globals).
  apply perm_swap.
Defined.

(** ** The properties with hypotheses, on concrete inputs *)

Lemma C5_loss_is_mean_squared_error_witness :
  length [[3]; [5]] = length [[1]; [2]] /\
  Forall (fun row : vector => length row = 1%nat) [[3]; [5]] /\
  @loss_function constant_libraries (constant_tree 0) [[1]; [2]] [[3]; [5]]
  = Rsum (map2 (fun t p => (t - p) ^ 2)
               (flatten [[3]; [5]])
               (flatten (apply (@net_transform constant_libraries) (constant_tree 0)
                               [[1]; [2]])))
    / INR (length [[1]; [2]]).
Proof.
  split; [reflexivity|]. split; [repeat constructor|].
  apply (@C5_loss_is_mean_squared_error constant_libraries (constant_tree 0)
           [[1]; [2]] [[3]; [5]]).
  - reflexivity.
  - repeat constructor.
Defined.

Lemma C10_partitions_within_batch_size_witness :
  valid_draw train_frac df_all (seq 5 40) /\
  map (@length SRow) (ddf_train (seq 5 40)) = [32; 8]%nat.
Proof.
  split; [exact valid_draw_example|].
  apply (C10_partitions_within_batch_size (seq 5 40)). exact valid_draw_example.
Defined.

(** * Further properties of the notebook's code *)

(** ** Partitioning keeps every row *)

Lemma iloc_app {A : Type} (data : list A) (i j k : nat) :
  (i <= j <= k)%nat -> iloc data i j ++ iloc data j k = iloc data i k.
Proof.
  intros Hijk. unfold iloc.
  replace (skipn j data) with (skipn (j - i) (skipn i data))
    by (rewrite skipn_skipn; f_equal; lia).
  replace (k - i)%nat with ((j - i) + (k - j))%nat by lia.
  generalize (skipn i data) as l. generalize (j - i)%nat as n.
  induction n as [|n IH]; intros l; [reflexivity|].
  destruct l as [|a l]; [cbn; rewrite firstn_nil; reflexivity|].
  cbn. rewrite IH. reflexivity.
Qed.

Lemma tl_snoc {A : Type} (l : list A) (a : A) : l <> [] -> tl (l ++ [a]) = tl l ++ [a].
Proof. destruct l; [congruence | reflexivity]. Qed.

Lemma combine_tl_snoc (l : list nat) (q : nat) :
  l <> [] -> combine (l ++ [q]) (tl (l ++ [q])) = combine l (tl l) ++ [(last l 0%nat, q)].
Proof.
  intros Hne. rewrite tl_snoc by exact Hne.
  destruct l as [|a l]; [congruence|]. clear Hne. cbn [tl].
  revert a. induction l as [|c l IH]; intros a; [reflexivity|].
  specialize (IH c). cbn [app combine] in *. rewrite IH. reflexivity.
Qed.

(** The slices between consecutive positions. *)
Lemma slices_snoc {A : Type} (data : list A) (positions : list nat) (q : nat) :
  positions <> [] ->
  concat (map (fun p => iloc data (fst p) (snd p))
              (combine (positions ++ [q]) (tl (positions ++ [q]))))
  = concat (map (fun p => iloc data (fst p) (snd p)) (combine positions (tl positions)))
    ++ iloc data (last positions 0%nat) q.
Proof.
  intros Hne. rewrite combine_tl_snoc by exact Hne.
  rewrite map_app, concat_app. cbn. rewrite app_nil_r. reflexivity.
Qed.

Lemma skip_duplicates_bounds (fuel : nat) (labels : list nat) (pos : nat) :
  (pos < length labels)%nat ->
  (pos <= skip_duplicates fuel labels pos < length labels)%nat.
Proof.
  revert pos. induction fuel as [|fuel IH]; intros pos Hpos; [cbn; lia|].
  cbn [skip_duplicates].
  destruct (pos + 1 <? length labels)%nat eqn:Hlt; cbn [andb]; [|lia].
  destruct (nth (pos - 1) labels 0 =? nth pos labels 0)%nat; [|lia].
  apply Nat.ltb_lt in Hlt. specialize (IH (pos + 1)%nat Hlt). lia.
Qed.


Lemma iloc_from_0 {A : Type} (data : list A) (n : nat) : iloc data 0 n = firstn n data.
Proof. unfold iloc. rewrite Nat.sub_0_r. reflexivity. Qed.

Lemma covers_snoc {A : Type} (data : list A) (positions : list nat) (q : nat) :
  covers data positions -> (last positions 0 <= q <= length data)%nat ->
  covers data (positions ++ [q]).
Proof.
  intros [Hne [Hlast Hcat]] Hq. unfold covers.
  rewrite last_last, slices_snoc by exact Hne.
  split; [destruct positions; discriminate|]. split; [lia|].
  rewrite Hcat, <- !iloc_from_0. apply iloc_app. lia.
Qed.

Lemma division_step_covers {A : Type} (data : list A) (labels positions : list nat)
  (pos : nat) :
  length labels = length data -> (pos < length labels)%nat ->
  covers data positions -> covers data (division_step labels positions pos).
Proof.
  intros Hlen Hpos Hcov. unfold division_step.
  destruct (pos <=? last positions 0)%nat eqn:Hle; [exact Hcov|].
  apply Nat.leb_gt in Hle.
  pose proof (skip_duplicates_bounds (length labels) labels pos Hpos) as Hskip.
  apply covers_snoc; [exact Hcov|].
  destruct (skip_duplicates (length labels) labels pos =? length labels - 1)%nat; lia.
Qed.

Lemma py_range_bound (stop step pos : nat) :
  (0 < step)%nat -> In pos (py_range 0 stop step) -> (pos < stop)%nat.
Proof.
  intros Hstep Hin. unfold py_range in Hin. apply in_map_iff in Hin.
  destruct Hin as [k [Hk Hin]]. apply in_seq in Hin.
  rewrite Nat.sub_0_r in Hin.
  pose proof (Nat.Div0.mul_div_le (stop + step - 1) step) as Hdiv.
  nia.
Qed.

Lemma sorted_division_locations_covers {A : Type} (data : list A) (labels : list nat)
  (chunksize : nat) :
  (0 < chunksize)%nat -> length labels = length data ->
  concat (map (fun p => iloc data (fst p) (snd p))
              (combine (sorted_division_locations labels chunksize)
                       (tl (sorted_division_locations labels chunksize))))
  = data.
Proof.
  intros Hchunk Hlen. unfold sorted_division_locations.
  assert (Hloop : covers data
            (fold_left (division_step labels) (py_range 0 (length labels) chunksize)
                       [0%nat])).
  { assert (Hstart : covers data [0%nat]).
    { split; [discriminate|]. split; [cbn; lia | reflexivity]. }
    assert (Hrange : Forall (fun pos => (pos < length labels)%nat)
                            (py_range 0 (length labels) chunksize)).
    { apply Forall_forall. intros pos. apply py_range_bound. exact Hchunk. }
    revert Hstart Hrange. generalize [0%nat] as positions.
    induction (py_range 0 (length labels) chunksize) as [|pos range IH];
      intros positions Hstart Hrange; [exact Hstart|].
    cbn [fold_left]. inversion Hrange; subst.
    apply IH; [|assumption]. apply division_step_covers; assumption. }
  set (positions := fold_left _ _ _) in *.
  assert (Hfinal : covers data
            (if (last positions 0 =? length labels)%nat then positions
             else positions ++ [length labels]) /\
          last (if (last positions 0 =? length labels)%nat then positions
                else positions ++ [length labels]) 0%nat = length data).
  { destruct (last positions 0 =? length labels)%nat eqn:Heq.
    - apply Nat.eqb_eq in Heq. split; [exact Hloop | lia].
    - split; [|rewrite last_last; exact Hlen].
      apply covers_snoc; [exact Hloop|]. destruct Hloop as [_ [Hlast _]]. lia. }
  destruct Hfinal as [[_ [_ Hcat]] Hlast].
  rewrite Hcat, Hlast. apply firstn_all.
Qed.

Lemma dd_from_pandas_concat (data : DataFrame) (chunksize : nat) :
  (0 < chunksize)%nat ->
  concat (dd_from_pandas data chunksize)
  = if is_monotonic_increasing (map idx data) then data else sort_index data.
Proof.
  intros Hchunk. unfold dd_from_pandas.
  destruct data as [|r0 data0] eqn:Hdata; [reflexivity|].
  rewrite <- Hdata.
  apply sorted_division_locations_covers; [exact Hchunk | apply length_map].
Qed.

Lemma dd_from_pandas_perm (data : DataFrame) (chunksize : nat) :
  (0 < chunksize)%nat -> Permutation (concat (dd_from_pandas data chunksize)) data.
Proof.
  intros Hchunk. rewrite dd_from_pandas_concat by exact Hchunk.
  destruct (is_monotonic_increasing (map idx data));
    [reflexivity | apply sort_index_perm].
Qed.

(** ** Standardising *)

Lemma Rsum_scaled (v : vector) (m s : R) :
  Rsum (map (fun a => (a - m) / s) v) = (Rsum v - INR (length v) * m) / s.
Proof.
  induction v as [|a v IH].
  - cbn. unfold Rdiv. ring.
  - cbn [map Rsum fold_right length]. fold (Rsum (map (fun a => (a - m) / s) v)).
    fold (Rsum v). rewrite IH, S_INR. unfold Rdiv. ring.
Qed.

Lemma Rsum_scaled_squares (v : vector) (m s : R) :
  Rsum (map (fun z => z ^ 2) (map (fun a => (a - m) / s) v))
  = Rsum (map (fun a => (a - m) ^ 2) v) * (/ s * / s).
Proof.
  induction v as [|a v IH].
  - cbn. ring.
  - cbn [map Rsum fold_right].
    fold (Rsum (map (fun z => z ^ 2) (map (fun a => (a - m) / s) v))).
    fold (Rsum (map (fun a => (a - m) ^ 2) v)). rewrite IH. unfold Rdiv. ring.
Qed.

Lemma Rsum_squares_nonneg (v : vector) (m : R) :
  0 <= Rsum (map (fun a => (a - m) ^ 2) v).
Proof.
  induction v as [|a v IH]; [cbn; lra|].
  cbn [map Rsum fold_right]. fold (Rsum (map (fun a => (a - m) ^ 2) v)).
  pose proof (pow2_ge_0 (a - m)). lra.
Qed.

Lemma Rsum_squares_zero (v : vector) (m : R) :
  Rsum (map (fun a => (a - m) ^ 2) v) = 0 -> Forall (fun a => a = m) v.
Proof.
  induction v as [|a v IH]; intros Hsum; [constructor|].
  cbn [map Rsum fold_right] in Hsum. fold (Rsum (map (fun a => (a - m) ^ 2) v)) in Hsum.
  pose proof (pow2_ge_0 (a - m)) as Ha.
  pose proof (Rsum_squares_nonneg v m) as Hv.
  constructor.
  - assert (Hz : (a - m) ^ 2 = 0) by lra.
    simpl in Hz. nra.
  - apply IH. lra.
Qed.

Lemma INR_length_pos {A : Type} (l : list A) : l <> [] -> 0 < INR (length l).
Proof.
  intros Hne. destruct l; [congruence|]. apply lt_0_INR. cbn. lia.
Qed.

Lemma variance_nonneg (v : vector) :
  v <> [] -> 0 <= np_mean (map (fun a => (a - np_mean v) ^ 2) v).
Proof.
  intros Hne. unfold np_mean at 1. rewrite length_map.
  apply Rmult_le_pos; [apply Rsum_squares_nonneg|].
  left. apply Rinv_0_lt_compat, INR_length_pos, Hne.
Qed.

Lemma scale_nonzero (v : vector) : scale_ (scaler_fit v) <> 0.
Proof.
  cbn [scale_ scaler_fit].
  destruct (Req_dec_T (sqrt (np_mean (map (fun a => (a - np_mean v) ^ 2) v))) 0);
    [lra | assumption].
Qed.

(** The standardised column has mean zero. *)
Lemma scaler_mean_zero (v : vector) :
  v <> [] -> np_mean (map (scaler_transform (scaler_fit v)) v) = 0.
Proof.
  intros Hne. pose proof (INR_length_pos v Hne) as Hn.
  pose proof (scale_nonzero v) as Hs.
  unfold np_mean at 1, scaler_transform. rewrite length_map, Rsum_scaled.
  replace (mean_ (scaler_fit v)) with (np_mean v) by reflexivity.
  unfold np_mean. field. split; lra.
Qed.

(** A column that is not constant is standardised to unit variance. *)
Lemma scaler_unit_variance (v : vector) :
  v <> [] ->
  sqrt (np_mean (map (fun a => (a - np_mean v) ^ 2) v)) <> 0 ->
  np_mean (map (fun z => z ^ 2) (map (scaler_transform (scaler_fit v)) v)) = 1.
Proof.
  intros Hne Hsd. pose proof (INR_length_pos v Hne) as Hn.
  pose proof (variance_nonneg v Hne) as Hvar.
  unfold np_mean at 1, scaler_transform. rewrite !length_map.
  cbn [mean_ scale_ scaler_fit].
  destruct (Req_dec_T _ 0) as [Hz|_]; [contradiction|].
  rewrite Rsum_scaled_squares.
  set (var := np_mean (map (fun a => (a - np_mean v) ^ 2) v)) in *.
  assert (Hsum : Rsum (map (fun a => (a - np_mean v) ^ 2) v) = var * INR (length v)).
  { unfold var, np_mean at 2. rewrite length_map. field. lra. }
  rewrite Hsum. rewrite <- (sqrt_sqrt var Hvar) at 1. field. split; lra.
Qed.

(** A column whose deviation is zero is constant. *)
Lemma zero_deviation_constant (v : vector) :
  v <> [] ->
  sqrt (np_mean (map (fun a => (a - np_mean v) ^ 2) v)) = 0 ->
  Forall (fun a => a = np_mean v) v.
Proof.
  intros Hne Hsd. pose proof (INR_length_pos v Hne) as Hn.
  apply sqrt_eq_0 in Hsd; [|apply variance_nonneg, Hne].
  apply Rsum_squares_zero. unfold np_mean at 1 in Hsd. rewrite length_map in Hsd.
  apply Rmult_integral in Hsd. destruct Hsd as [Hsd|Hsd]; [exact Hsd|].
  pose proof (Rinv_0_lt_compat _ Hn). lra.
Qed.

(** A column with two different entries has a deviation that is not zero. *)
Lemma deviation_nonzero (v : vector) (a c : R) :
  In a v -> In c v -> a <> c ->
  sqrt (np_mean (map (fun a => (a - np_mean v) ^ 2) v)) <> 0.
Proof.
  intros Ha Hc Hac Hsd.
  assert (Hne : v <> []) by (destruct v; [contradiction | discriminate]).
  pose proof (zero_deviation_constant v Hne Hsd) as Hall.
  rewrite Forall_forall in Hall.
  rewrite (Hall a Ha), (Hall c Hc) in Hac. congruence.
Qed.

(** Every row of the table holds the point of its label. *)
Lemma df_all_x_of_idx (r : Row) :
  In r df_all -> x_col r = INR (idx r) * (2 * PI / 49).
Proof.
  intros Hr. destruct (In_nth_error _ _ Hr) as [i Hi].
  assert (Hidx : map idx df_all = seq 0 (length df_all))
    by (rewrite length_df_all; exact df_all_idx).
  rewrite (range_index_nth df_all i r Hidx Hi).
  assert (Hlt : (i < 50)%nat)
    by (rewrite <- length_df_all; apply nth_error_Some; congruence).
  assert (Hx : map x_col df_all = map (fun i => INR i * (2 * PI / 49)) (seq 0 50)).
  { rewrite <- (map_map (fun r => (x_col r, y_col r)) fst), df_all_columns, map_map.
    rewrite <- x_evenly_spaced. apply map_id. }
  apply (map_nth_error x_col) in Hi. rewrite Hx in Hi.
  rewrite (map_nth_error _ i (seq 0 50) (d := i)) in Hi.
  - congruence.
  - rewrite nth_error_nth' with (d := 0%nat) by (rewrite length_seq; exact Hlt).
    rewrite seq_nth by exact Hlt. reflexivity.
Qed.

Lemma df_all_x_distinct (r1 r2 : Row) :
  In r1 df_all -> In r2 df_all -> idx r1 <> idx r2 -> x_col r1 <> x_col r2.
Proof.
  intros H1 H2 Hidx Hx.
  rewrite (df_all_x_of_idx r1 H1), (df_all_x_of_idx r2 H2) in Hx.
  apply Hidx, INR_eq.
  pose proof PI_RGT_0 as Hpi.
  apply (Rmult_eq_reg_r (2 * PI / 49)); [exact Hx | lra].
Qed.

Lemma assign_scaled_x_concat (s : StandardScaler) (ddf : list DataFrame) :
  concat (assign_scaled_x s ddf)
  = map (fun r => mkSRow r (scaler_transform s (x_col r))) (concat ddf).
Proof. unfold assign_scaled_x. rewrite concat_map. reflexivity. Qed.

(** X3: in the notebook, whatever rows the sample draws, the training
    partitions hold exactly the training rows; the deviation of their x is not
    zero, so the scaler divides by it; and over the training rows scaled_x has
    mean zero and mean square one. *)
Theorem X3_training_feature_is_standardised (locs : list nat) :
  valid_draw train_frac df_all locs ->
  Permutation (map base (concat (ddf_train locs))) (df_train locs) /\
  0 < scale_ (scaler locs) /\
  np_mean (map scaled_x (concat (ddf_train locs))) = 0 /\
  np_mean (map (fun r => scaled_x r ^ 2) (concat (ddf_train locs))) = 1.
Proof.
  intros Hdraw.
  destruct (split_shapes locs Hdraw) as [_ [Htake [_ Hlt]]].
  assert (Hchunk : (0 < batch_size)%nat) by (unfold batch_size; lia).
  pose proof (dd_from_pandas_perm (df_train locs) batch_size Hchunk) as Hperm.
  set (rows := concat (dd_from_pandas (df_train locs) batch_size)) in *.
  set (v := map x_col rows).
  assert (Hbase : map base (concat (ddf_train locs)) = rows).
  { unfold ddf_train. rewrite assign_scaled_x_concat, map_map. apply map_id. }
  assert (Hscaled : map scaled_x (concat (ddf_train locs))
                    = map (scaler_transform (scaler_fit v)) v).
  { unfold ddf_train, v. rewrite assign_scaled_x_concat, !map_map. reflexivity. }
  assert (Hsd : sqrt (np_mean (map (fun a => (a - np_mean v) ^ 2) v)) <> 0).
  { assert (Hlen : length rows = 40%nat)
      by (rewrite (Permutation_length Hperm); exact Hlt).
    assert (Hnd : NoDup (map idx rows)).
    { apply (Permutation_NoDup (l := map idx (df_train locs))).
      - apply Permutation_sym, Permutation_map, Hperm.
      - rewrite Htake. apply Hdraw. }
    assert (Hin : forall r, In r rows -> In r df_all).
    { intros r Hr. apply (Permutation_in _ Hperm) in Hr.
      unfold df_train, df_sample in Hr. apply df_take_In in Hr.
      destruct Hr as [i [_ Hi]]. eapply nth_error_In. exact Hi. }
    destruct rows as [|r1 [|r2 rest]] eqn:Hrows; try discriminate.
    apply (deviation_nonzero v (x_col r1) (x_col r2)).
    - unfold v. left. reflexivity.
    - unfold v. right. left. reflexivity.
    - apply df_all_x_distinct.
      + apply Hin. left. reflexivity.
      + apply Hin. right. left. reflexivity.
      + cbn [map] in Hnd. inversion Hnd as [|? ? Hnotin _]. subst.
        intros Heq. apply Hnotin. left. symmetry. exact Heq. }
  assert (Hne : v <> []).
  { unfold v. intros Hv. apply (f_equal (@length R)) in Hv.
    rewrite length_map, (Permutation_length Hperm), Hlt in Hv. discriminate. }
  split; [rewrite Hbase; exact Hperm|]. split; [|split].
  - unfold scaler. fold rows. fold v. cbn [scale_ scaler_fit].
    destruct (Req_dec_T _ 0) as [Hz|Hnz]; [contradiction|].
    pose proof (sqrt_pos (np_mean (map (fun a => (a - np_mean v) ^ 2) v))). lra.
  - rewrite Hscaled. apply scaler_mean_zero, Hne.
  - rewrite <- (map_map scaled_x (fun z => z ^ 2)), Hscaled.
    apply scaler_unit_variance; assumption.
Qed.

Lemma X3_training_feature_is_standardised_witness :
  valid_draw train_frac df_all (seq 5 40) /\
  np_mean (map scaled_x (concat (ddf_train (seq 5 40)))) = 0.
Proof.
  split; [exact valid_draw_example|].
  apply (X3_training_feature_is_standardised (seq 5 40)). exact valid_draw_example.
Defined.

Section MoreNotebookProperties.

Context {L : Libraries}.

(** ** Predictions and partitions *)

Lemma net_app (params : Params) (x1 x2 : matrix) :
  apply net_transform params (x1 ++ x2)
  = apply net_transform params x1 ++ apply net_transform params x2.
Proof.
  rewrite (net_rowwise params (x1 ++ x2)), flat_map_app, <- !net_rowwise.
  reflexivity.
Qed.

Lemma dask_predict_wrapper_app (df1 df2 : SDataFrame) (params : Params) :
  dask_predict_wrapper (df1 ++ df2) params
  = dask_predict_wrapper df1 params ++ dask_predict_wrapper df2 params.
Proof.
  unfold dask_predict_wrapper, predict, jax_jit, column_values, flatten.
  rewrite map_app, net_app, concat_app. reflexivity.
Qed.

Lemma dask_predict_wrapper_length (df : SDataFrame) (params : Params) :
  length (dask_predict_wrapper df params) = length df.
Proof.
  unfold dask_predict_wrapper, predict, jax_jit.
  destruct (net_column params (column_values scaled_x df)) as [v [Hlen Hv]].
  rewrite Hv, flatten_column, Hlen. unfold column_values. apply length_map.
Qed.

(** X4: the predictions do not depend on how the rows are cut into
    partitions: predicting partition by partition with [map_partitions] and
    putting the results end to end gives what the wrapper gives on all the
    rows at once, one prediction per row; an empty partition gives none. *)
Theorem X4_predictions_independent_of_partitioning
  (ddf : list SDataFrame) (params : Params) :
  concat (map_partitions dask_predict_wrapper ddf params)
    = dask_predict_wrapper (concat ddf) params /\
  length (concat (map_partitions dask_predict_wrapper ddf params))
    = length (concat ddf) /\
  dask_predict_wrapper [] params = [].
Proof.
  assert (Hnil : dask_predict_wrapper [] params = []).
  { apply length_zero_iff_nil. apply dask_predict_wrapper_length. }
  assert (Hcat : concat (map_partitions dask_predict_wrapper ddf params)
                 = dask_predict_wrapper (concat ddf) params).
  { unfold map_partitions. induction ddf as [|df ddf IH].
    - cbn [map concat]. symmetry. exact Hnil.
    - cbn [map concat]. rewrite IH, dask_predict_wrapper_app. reflexivity. }
  split; [exact Hcat|]. split; [|exact Hnil].
  rewrite Hcat. apply dask_predict_wrapper_length.
Qed.

(** ** The loss *)

(** The loss as a sum over the batch. *)
Lemma loss_as_sum (params : Params) (x y_true : matrix) :
  length y_true = length x ->
  Forall (fun row => length row = 1%nat) y_true ->
  loss_function params x y_true
  = Rsum (map2 (fun t p => (t - p) ^ 2)
               (flatten y_true) (flatten (apply net_transform params x)))
    / INR (length x).
Proof.
  intros Hlen Hcol.
  unfold loss_function, jax_jit, mean_squared_error, jnp_average.
  destruct (net_column params x) as [v [Hv Hpred]].
  rewrite Hpred. clear Hpred.
  pose proof (column_shape y_true Hcol) as Hy.
  set (t := flatten y_true) in *. clearbody t. subst y_true.
  rewrite length_map in Hlen.
  rewrite columns_elementwise, !flatten_column.
  rewrite length_map2 by congruence.
  rewrite Hlen. reflexivity.
Qed.

Lemma Rsum_squared_differences_nonneg (t p : vector) :
  0 <= Rsum (map2 (fun a c => (a - c) ^ 2) t p).
Proof.
  unfold map2. induction (combine t p) as [|[a c] l IH]; [cbn; lra|].
  cbn [map Rsum fold_right fst snd].
  fold (Rsum (map (fun q => (fst q - snd q) ^ 2) l)).
  pose proof (pow2_ge_0 (a - c)). lra.
Qed.

Lemma Rsum_squared_differences_zero (t p : vector) :
  length t = length p ->
  Rsum (map2 (fun a c => (a - c) ^ 2) t p) = 0 <-> t = p.
Proof.
  revert p. induction t as [|a t IH]; intros [|c p] Hlen; try discriminate.
  - split; reflexivity.
  - unfold map2. cbn [combine map Rsum fold_right fst snd].
    fold (map2 (fun a c => (a - c) ^ 2) t p).
    fold (Rsum (map2 (fun a c => (a - c) ^ 2) t p)).
    pose proof (pow2_ge_0 (a - c)) as Ha.
    pose proof (Rsum_squared_differences_nonneg t p) as Hrest.
    cbn [length] in Hlen. injection Hlen as Hlen.
    split.
    + intros Hsum. assert (Hz : (a - c) ^ 2 = 0) by lra.
      assert (Hac : a = c) by (simpl in Hz; nra).
      f_equal; [exact Hac|]. apply IH; [exact Hlen | lra].
    + intros Heq. injection Heq as Hac Htp. subst c.
      apply (IH p Hlen) in Htp. rewrite Htp. simpl. ring.
Qed.

(** X5: on a batch that is not empty and a column of as many targets, the
    loss is never negative, and it is zero exactly when the network predicts
    every target of the batch. *)
Theorem X5_loss_nonnegative_zero_iff_exact (params : Params) (x y_true : matrix) :
  x <> [] ->
  length y_true = length x ->
  Forall (fun row => length row = 1%nat) y_true ->
  0 <= loss_function params x y_true /\
  (loss_function params x y_true = 0 <-> apply net_transform params x = y_true).
Proof.
  intros Hne Hlen Hcol. pose proof (INR_length_pos x Hne) as Hn.
  rewrite (loss_as_sum params x y_true Hlen Hcol).
  destruct (net_column params x) as [v [Hv Hpred]]. rewrite Hpred.
  pose proof (column_shape y_true Hcol) as Hy.
  set (t := flatten y_true) in *. clearbody t. subst y_true.
  rewrite length_map in Hlen. rewrite flatten_column.
  pose proof (Rsum_squared_differences_nonneg t v) as Hsum.
  assert (Hinv : 0 < / INR (length x)) by (apply Rinv_0_lt_compat; exact Hn).
  split.
  - unfold Rdiv. apply Rmult_le_pos; lra.
  - split.
    + intros Hz. apply Rmult_integral in Hz. destruct Hz as [Hz|Hz]; [|lra].
      apply Rsum_squared_differences_zero in Hz; [|congruence]. congruence.
    + intros Heq.
      assert (Hvt : t = v).
      { rewrite <- (flatten_column t), <- (flatten_column v), Heq. reflexivity. }
      apply (Rsum_squared_differences_zero t v) in Hvt; [|congruence].
      rewrite Hvt. unfold Rdiv. ring.
Qed.

Lemma Rsum_app (u v : vector) : Rsum (u ++ v) = Rsum u + Rsum v.
Proof.
  induction u as [|a u IH]; [change (Rsum v = 0 + Rsum v); ring|].
  change (a + Rsum (u ++ v) = a + Rsum u + Rsum v). rewrite IH. ring.
Qed.

Lemma map2_app {A B C : Type} (f : A -> B -> C) (u1 u2 : list A) (v1 v2 : list B) :
  length u1 = length v1 ->
  map2 f (u1 ++ u2) (v1 ++ v2) = map2 f u1 v1 ++ map2 f u2 v2.
Proof.
  unfold map2. revert v1. induction u1 as [|a u1 IH]; intros [|c v1] Hlen;
    try discriminate; [reflexivity|].
  cbn [app combine map]. rewrite IH; [reflexivity|].
  cbn [length] in Hlen. lia.
Qed.

(** On a batch that is not empty, the loss times the size of the batch is
    the sum of the squared differences. *)
Lemma loss_times_size (params : Params) (x y_true : matrix) :
  x <> [] ->
  length y_true = length x ->
  Forall (fun row => length row = 1%nat) y_true ->
  INR (length x) * loss_function params x y_true
  = Rsum (map2 (fun t p => (t - p) ^ 2)
               (flatten y_true) (flatten (apply net_transform params x))).
Proof.
  intros Hne Hlen Hcol. rewrite (loss_as_sum params x y_true Hlen Hcol).
  field. pose proof (INR_length_pos x Hne). lra.
Qed.

(** X6: the loss of two batches that are not empty, put together, is the
    mean of their losses weighted by their sizes: the size of the whole times
    its loss is the sum over the two batches of the size times the loss. *)
Theorem X6_loss_of_concatenated_batches
  (params : Params) (x1 x2 y1 y2 : matrix) :
  x1 <> [] ->
  x2 <> [] ->
  length y1 = length x1 ->
  length y2 = length x2 ->
  Forall (fun row => length row = 1%nat) y1 ->
  Forall (fun row => length row = 1%nat) y2 ->
  INR (length (x1 ++ x2)) * loss_function params (x1 ++ x2) (y1 ++ y2)
  = INR (length x1) * loss_function params x1 y1
    + INR (length x2) * loss_function params x2 y2.
Proof.
  intros Hne1 Hne2 Hlen1 Hlen2 Hcol1 Hcol2.
  assert (Hne : x1 ++ x2 <> []) by (destruct x1; [congruence | discriminate]).
  assert (Hlen : length (y1 ++ y2) = length (x1 ++ x2))
    by (rewrite !length_app; congruence).
  assert (Hcol : Forall (fun row => length row = 1%nat) (y1 ++ y2))
    by (apply Forall_app; split; assumption).
  rewrite (loss_times_size params _ _ Hne Hlen Hcol),
    (loss_times_size params _ _ Hne1 Hlen1 Hcol1),
    (loss_times_size params _ _ Hne2 Hlen2 Hcol2).
  rewrite net_app. unfold flatten. rewrite !concat_app.
  rewrite map2_app, Rsum_app; [reflexivity|].
  destruct (net_column params x1) as [v [Hv Hpred]]. rewrite Hpred.
  rewrite (column_shape y1 Hcol1) at 1.
  fold (flatten (map (fun a => [a]) (flatten y1))).
  fold (flatten (map (fun a => [a]) v)).
  rewrite !flatten_column, Hv, <- Hlen1.
  rewrite (column_shape y1 Hcol1) at 2. rewrite length_map. reflexivity.
Qed.

(** ** The parameters of the network *)

Lemma tabulate_shape (r c : nat) (f : nat -> nat -> R) :
  map (@length R) (tabulate r c f) = repeat c r.
Proof.
  unfold tabulate. rewrite map_map.
  assert (H : forall l : list nat,
             map (fun i => length (map (fun j => f i j) (seq 0 c))) l
             = repeat c (length l)).
  { induction l as [|i l IH]; [reflexivity|].
    cbn [map length repeat]. rewrite IH, length_map, length_seq. reflexivity. }
  rewrite H, length_seq. reflexivity.
Qed.

Lemma linear_created_shape (key : Key) (input_size output_size : nat) :
  linear_shape (linear_created key input_size output_size)
    = (repeat output_size input_size, output_size) /\
  b (linear_created key input_size output_size) = repeat 0 output_size.
Proof.
  unfold linear_shape, linear_created, TruncatedNormal. cbn [w b fst snd].
  split; [|reflexivity]. rewrite tabulate_shape, repeat_length. reflexivity.
Qed.

(** X7: whatever the keys and the samplers give, [initialize_net_function]
    returns four layers with weights of shapes (1, 50), (50, 100), (100, 50)
    and (50, 1) and with biases of 50, 100, 50 and 1 zeros. *)
Theorem X7_initial_parameters_shape (s : NpRandomState) :
  tree_shape (snd (fst (initialize_net_function s))) = net_shape /\
  map b (snd (fst (initialize_net_function s)))
    = [repeat 0 50%nat; repeat 0 100%nat; repeat 0 50%nat; repeat 0 1%nat].
Proof.
  rewrite initialize_net_function_params, init_explicit.
  unfold tree_shape, net_shape. cbn [map length].
  repeat match goal with
         | |- context [linear_shape (linear_created ?k ?i ?o)] =>
             rewrite (proj1 (linear_created_shape k i o))
         | |- context [b (linear_created ?k ?i ?o)] =>
             rewrite (proj2 (linear_created_shape k i o))
         end.
  split; reflexivity.
Qed.

(** ** Shapes are kept *)

Lemma mat_map2_shape (f : R -> R -> R) (m n : matrix) :
  map (@length R) m = map (@length R) n ->
  map (@length R) (mat_map2 f m n) = map (@length R) m.
Proof.
  unfold mat_map2, map2. revert n.
  induction m as [|u m IH]; intros [|v n] Hshape; try discriminate; [reflexivity|].
  cbn [map length combine fst snd] in *. injection Hshape as Huv Hmn.
  rewrite IH by exact Hmn. f_equal.
  rewrite length_map, length_combine. lia.
Qed.

Lemma tree_map_shape (f : R -> R) (t : Params) : tree_shape (tree_map f t) = tree_shape t.
Proof.
  unfold tree_shape, tree_map. rewrite map_map. apply map_ext.
  intros l. unfold linear_shape, mat_map. cbn [w b].
  rewrite map_map, length_map. f_equal. apply map_ext. intros row. apply length_map.
Qed.

Lemma tree_multimap_shape (f : R -> R -> R) (t u : Params) :
  tree_shape t = tree_shape u -> tree_shape (tree_multimap f t u) = tree_shape t.
Proof.
  unfold tree_shape, tree_multimap, map2. revert u.
  induction t as [|l t IH]; intros [|m u] Hshape; try discriminate; [reflexivity|].
  cbn [map combine fst snd] in *. injection Hshape as Hw Hb Htu.
  rewrite IH by exact Htu. f_equal.
  unfold linear_shape. cbn [w b]. f_equal.
  - apply mat_map2_shape. exact Hw.
  - rewrite length_map, length_combine. lia.
Qed.

(** The client's step, written out. *)
Lemma client_step_explicit (p : Params) (o : OptState) (grads : Params) :
  let t := (count (fst o) + 1)%nat in
  let mu' := update_moment grads (mu (fst o)) (9 / 10) 1 in
  let nu' := update_moment grads (nu (fst o)) (999 / 1000) 2 in
  let mu_hat := tree_map (fun a => a / (1 - (9 / 10) ^ t)) mu' in
  let nu_hat := tree_map (fun a => a / (1 - (999 / 1000) ^ t)) nu' in
  client_step (p, o) grads
  = (optix_apply_updates p
       (tree_map (fun g => - (1 / 1000) * g)
          (tree_multimap (fun m v => m / (sqrt v + 1 / 100000000)) mu_hat nu_hat)),
     (mkAdamState t mu' nu', tt)).
Proof. destruct o as [adam []]. reflexivity. Qed.

Lemma client_step_shaped (S : list (list nat * nat)) (st : Params * OptState)
  (grads : Params) :
  tree_shape grads = S -> shaped S st -> shaped S (client_step st grads).
Proof.
  intros Hg [Hp [Hmu Hnu]]. destruct st as [p o]. cbn [fst snd] in *.
  rewrite client_step_explicit. cbv zeta. unfold shaped. cbn [fst snd mu nu].
  assert (Hmu' : tree_shape (update_moment grads (mu (fst o)) (9 / 10) 1) = S).
  { unfold update_moment. rewrite tree_multimap_shape; congruence. }
  assert (Hnu' : tree_shape (update_moment grads (nu (fst o)) (999 / 1000) 2) = S).
  { unfold update_moment. rewrite tree_multimap_shape; congruence. }
  split; [|split; assumption].
  assert (Hu : tree_shape
            (tree_map (fun g => - (1 / 1000) * g)
               (tree_multimap (fun m v => m / (sqrt v + 1 / 100000000))
                  (tree_map (fun a => a / (1 - (9 / 10) ^ (count (fst o) + 1)))
                     (update_moment grads (mu (fst o)) (9 / 10) 1))
                  (tree_map (fun a => a / (1 - (999 / 1000) ^ (count (fst o) + 1)))
                     (update_moment grads (nu (fst o)) (999 / 1000) 2)))) = S).
  { rewrite tree_map_shape, tree_multimap_shape; rewrite !tree_map_shape; congruence. }
  unfold optix_apply_updates. rewrite tree_multimap_shape; congruence.
Qed.

Lemma client_steps_shaped (S : list (list nat * nat)) (grads : list Params)
  (st : Params * OptState) :
  Forall (fun g => tree_shape g = S) grads -> shaped S st ->
  shaped S (fold_left client_step grads st).
Proof.
  intros Hgrads. revert st. induction Hgrads as [|g grads Hg _ IH]; intros st Hst.
  - exact Hst.
  - cbn [fold_left]. apply IH, client_step_shaped; assumption.
Qed.

(** An invariant of the body of a loop is an invariant of the loop. *)
Lemma for_each_invariant {St A : Type} (I : St -> Prop) (l : list A)
  (body : A -> State St unit) (s : St) :
  (forall a s', I s' -> I (snd (body a s'))) -> I s -> I (snd (for_each l body s)).
Proof.
  intros Hbody. revert s. induction l as [|a l IH]; intros s Hs; [exact Hs|].
  rewrite for_each_cons. apply IH, Hbody, Hs.
Qed.

Lemma initial_state_shaped :
  shaped net_shape
    (init net_transform (jax_random_PRNGKey 42) [[0]],
     init_fn optimizer (init net_transform (jax_random_PRNGKey 42) [[0]])).
Proof.
  assert (Hp : tree_shape (init net_transform (jax_random_PRNGKey 42) [[0]]) = net_shape).
  { rewrite init_explicit. unfold tree_shape. cbn [map length].
    repeat match goal with
           | |- context [linear_shape (linear_created ?k ?i ?o)] =>
               rewrite (proj1 (linear_created_shape k i o))
           end.
    reflexivity. }
  unfold shaped. cbn [fst snd]. split; [exact Hp|].
  change (mu (fst (init_fn optimizer ?p))) with (tree_map (fun _ => 0) p).
  change (nu (fst (init_fn optimizer ?p))) with (tree_map (fun _ => 0) p).
  rewrite tree_map_shape. split; exact Hp.
Qed.

Lemma train_case1_body_shaped (S : list (list nat * nat)) (part : nat * SDataFrame)
  (g : Globals) :
  (forall p x y, tree_shape (jax_grad loss_function p x y) = tree_shape p) ->
  shaped S (params g, opt_state g) ->
  shaped S (params (snd (train_case1_body part g)),
            opt_state (snd (train_case1_body part g))).
Proof.
  intros Hgrad Hg. rewrite train_case1_body_run. cbn [snd params opt_state].
  rewrite <- surjective_pairing.
  change (update_on (params g, opt_state g) (batch_arrays (snd part)))
    with (client_step (params g, opt_state g)
            (jax_grad loss_function (params g)
               (fst (batch_arrays (snd part))) (snd (batch_arrays (snd part))))).
  apply client_step_shaped; [|exact Hg].
  rewrite Hgrad. apply Hg.
Qed.

Lemma train_case2_epoch_shaped (S : list (list nat * nat)) (picks : nat -> nat)
  (ddf : list SDataFrame) (g : Globals) :
  (forall p x y, tree_shape (jax_grad loss_function p x y) = tree_shape p) ->
  shaped S (params g, opt_state g) ->
  shaped S (params (snd (train_case2_epoch picks ddf g)),
            opt_state (snd (train_case2_epoch picks ddf g))).
Proof.
  intros Hgrad Hg. rewrite train_case2_epoch_run.
  set (futures := map (fun part => mkFuture part (params g)) (partitions ddf)).
  match goal with |- context [for_each _ _ ?g1] =>
    destruct (aggregate_run (as_completed picks futures) g1) as [Hrun _] end.
  cbn zeta in Hrun. cbn [params opt_state] in Hrun. rewrite Hrun.
  apply client_steps_shaped; [|exact Hg].
  destruct (completion_perm (length futures) picks 0 futures (Nat.le_refl _))
    as [Hperm Hres].
  fold (as_completed picks futures) in Hperm, Hres.
  rewrite Forall_map. apply Forall_forall. intros c Hc.
  rewrite Forall_forall in Hres. rewrite (Hres c Hc).
  assert (Hf : In (fst c) futures) by (apply (Permutation_in _ Hperm), in_map, Hc).
  apply in_map_iff in Hf. destruct Hf as [part [Hpart _]]. rewrite <- Hpart.
  unfold future_result, dask_compute_grads_one_partition_wrapper, compute_grads, jax_jit.
  cbn [task_partition task_params snd]. rewrite Hgrad. apply Hg.
Qed.

Lemma notebook_run (scheduler : nat -> nat -> nat) (ddf : list SDataFrame) (g : Globals) :
  notebook scheduler ddf g = train_case2 scheduler ddf (snd (before_case2 ddf g)).
Proof. unfold notebook, bind. destruct (before_case2 ddf g). reflexivity. Qed.

(** X8: when the gradient of the loss has the shape of the parameters (as a
    derivative in the parameters has), training never changes a shape: after
    the CASE 1 loop, and after the whole notebook for any scheduler, the
    parameters and both moments of the optimizer have the shape that the
    network gave its parameters at initialisation. *)
Theorem X8_training_keeps_shapes
  (scheduler : nat -> nat -> nat) (ddf_train : list SDataFrame) (s : NpRandomState) :
  (forall p x y, tree_shape (jax_grad loss_function p x y) = tree_shape p) ->
  let g1 := snd (train_case1 ddf_train (snd (before_case1 (fresh_kernel s)))) in
  let g2 := snd (notebook scheduler ddf_train (fresh_kernel s)) in
  shaped net_shape (params g1, opt_state g1) /\
  shaped net_shape (params g2, opt_state g2).
Proof.
  intros Hgrad g1 g2. split.
  - unfold g1, train_case1.
    apply (for_each_invariant (fun g => shaped net_shape (params g, opt_state g))).
    + intros e g Hg.
      apply (for_each_invariant (fun g => shaped net_shape (params g, opt_state g)));
        [|exact Hg].
      intros part g' Hg'. apply train_case1_body_shaped; assumption.
    + unfold before_case1. rewrite reset_run. cbn [snd params opt_state].
      exact initial_state_shaped.
  - unfold g2. rewrite notebook_run.
    destruct (before_case2_run ddf_train (fresh_kernel s)) as [s' [tr Hrun]].
    rewrite Hrun. cbn [snd]. unfold train_case2.
    apply (for_each_invariant (fun g => shaped net_shape (params g, opt_state g))).
    + intros e g Hg. apply train_case2_epoch_shaped; assumption.
    + cbn [params opt_state]. exact initial_state_shaped.
Qed.

(** ** The two loops compared *)

(** A relation that the bodies of two loops keep is kept by the loops. *)
Lemma for_each_respects {St A : Type} (Rel : St -> St -> Prop) (l : list A)
  (body1 body2 : A -> State St unit) (s1 s2 : St) :
  (forall a s s', Rel s s' -> Rel (snd (body1 a s)) (snd (body2 a s'))) ->
  Rel s1 s2 -> Rel (snd (for_each l body1 s1)) (snd (for_each l body2 s2)).
Proof.
  intros Hbody. revert s1 s2. induction l as [|a l IH]; intros s1 s2 Hs; [exact Hs|].
  rewrite !for_each_cons. apply IH, Hbody, Hs.
Qed.

(** One epoch of CASE 1 on the parameters and the optimizer state. *)
Lemma train_case1_epoch_model (ddf : list SDataFrame) (g : Globals) :
  (params (snd (for_each (partitions ddf) train_case1_body g)),
   opt_state (snd (for_each (partitions ddf) train_case1_body g)))
  = fold_left update_on (map batch_arrays ddf) (params g, opt_state g).
Proof.
  destruct (case1_loop_run (partitions ddf) g) as [Hrun _]. cbn zeta in Hrun.
  rewrite Hrun, <- (map_map snd batch_arrays), partitions_snd. reflexivity.
Qed.

(** One epoch of CASE 2 on the parameters and the optimizer state. *)
Lemma train_case2_epoch_model (picks : nat -> nat) (ddf : list SDataFrame) (g : Globals) :
  (params (snd (train_case2_epoch picks ddf g)),
   opt_state (snd (train_case2_epoch picks ddf g)))
  = fold_left client_step
      (map snd (as_completed picks
                  (map (fun part => mkFuture part (params g)) (partitions ddf))))
      (params g, opt_state g).
Proof.
  rewrite train_case2_epoch_run.
  match goal with |- context [for_each ?c _ ?g1] =>
    destruct (aggregate_run c g1) as [Hrun _] end.
  cbn zeta in Hrun. cbn [params opt_state] in Hrun. exact Hrun.
Qed.

Lemma as_completed_length (picks : nat -> nat) (futures : list Future) :
  length (as_completed picks futures) = length futures.
Proof.
  destruct (completion_perm (length futures) picks 0 futures (Nat.le_refl _))
    as [Hperm _].
  fold (as_completed picks futures) in Hperm.
  rewrite <- (length_map fst). apply Permutation_length. exact Hperm.
Qed.

Lemma update_steps_count (batches : list (matrix * matrix)) (st : Params * OptState) :
  count (fst (snd (fold_left update_on batches st)))
  = (count (fst (snd st)) + length batches)%nat.
Proof.
  revert st. induction batches as [|batch batches IH]; intros st.
  - cbn. lia.
  - cbn [fold_left length]. rewrite IH.
    change (count (fst (snd (update_on st batch)))) with (count (fst (snd st)) + 1)%nat.
    lia.
Qed.

Lemma train_case2_epochs_count (scheduler : nat -> nat -> nat) (ddf : list SDataFrame)
  (k n : nat) (g : Globals) :
  count (fst (opt_state
                (snd (for_each (seq k n)
                        (fun e => train_case2_epoch (scheduler e) ddf) g))))
  = (count (fst (opt_state g)) + n * length ddf)%nat.
Proof.
  revert k g. induction n as [|n IH]; intros k g; [cbn; lia|].
  cbn [seq]. rewrite for_each_cons, IH.
  pose proof (train_case2_epoch_model (scheduler k) ddf g) as Hrun.
  apply (f_equal (fun st => count (fst (snd st)))) in Hrun.
  cbn [snd] in Hrun. rewrite Hrun, client_steps_count, length_map, as_completed_length.
  unfold partitions. rewrite length_map, length_combine, length_seq, Nat.min_id.
  cbn [snd]. lia.
Qed.

(** X10: both loops make the same number of optimizer steps: 200 times the
    number of partitions, whatever the scheduler does; and as the reset puts
    the step count back to zero, that is Adam's step count at the end of the
    notebook. *)
Theorem X10_number_of_optimizer_steps
  (scheduler : nat -> nat -> nat) (ddf_train : list SDataFrame) (g : Globals)
  (s : NpRandomState) :
  count (fst (opt_state (snd (train_case1 ddf_train g))))
    = (count (fst (opt_state g)) + 200 * length ddf_train)%nat /\
  count (fst (opt_state (snd (train_case2 scheduler ddf_train g))))
    = (count (fst (opt_state g)) + 200 * length ddf_train)%nat /\
  count (fst (opt_state (snd (notebook scheduler ddf_train (fresh_kernel s)))))
    = (200 * length ddf_train)%nat.
Proof.
  split; [|split].
  - unfold train_case1, num_epochs. rewrite for_each_nested.
    destruct (case1_loop_run (concat (repeat (partitions ddf_train) 200)) g) as [Hrun _].
    cbn zeta in Hrun.
    apply (f_equal (fun st => count (fst (snd st)))) in Hrun. cbn [snd] in Hrun.
    rewrite Hrun, update_steps_count, length_map. cbn [snd]. f_equal.
    generalize 200%nat as n. induction n as [|n IH]; [reflexivity|].
    cbn [repeat concat]. rewrite length_app, IH.
    unfold partitions. rewrite length_combine, length_seq, Nat.min_id. lia.
  - unfold train_case2, num_epochs. apply train_case2_epochs_count.
  - rewrite notebook_run.
    destruct (before_case2_run ddf_train (fresh_kernel s)) as [s' [tr Hrun]].
    rewrite Hrun. cbn [snd]. unfold train_case2, num_epochs.
    rewrite train_case2_epochs_count. reflexivity.
Qed.

Lemma as_completed_single (picks : nat -> nat) (f : Future) :
  as_completed picks [f] = [(f, future_result f)].
Proof.
  unfold as_completed. cbn [length completion]. rewrite Nat.mod_1_r. reflexivity.
Qed.

(** X11: with a single training partition the two strategies are the same
    computation: for every scheduler the CASE 2 loop leaves the parameters and
    the optimizer state that the CASE 1 loop leaves, because the one gradient
    of an epoch is applied to the parameters at which it was computed. *)
Theorem X11_single_partition_strategies_agree
  (scheduler : nat -> nat -> nat) (df : SDataFrame) (g : Globals) :
  params (snd (train_case2 scheduler [df] g)) = params (snd (train_case1 [df] g)) /\
  opt_state (snd (train_case2 scheduler [df] g)) = opt_state (snd (train_case1 [df] g)).
Proof.
  unfold train_case2, train_case1.
  apply (for_each_respects
           (fun g2 g1 => params g2 = params g1 /\ opt_state g2 = opt_state g1));
    [|split; reflexivity].
  intros e g2 g1 [Hp Ho].
  pose proof (train_case2_epoch_model (scheduler e) [df] g2) as H2.
  pose proof (train_case1_epoch_model [df] g1) as H1.
  change (partitions [df]) with [(0%nat, df)] in H2.
  cbn [map] in H1, H2. rewrite as_completed_single in H2.
  cbn [map snd fold_left] in H1, H2.
  rewrite Hp, Ho in H2.
  assert (Heq : (params (snd (train_case2_epoch (scheduler e) [df] g2)),
                 opt_state (snd (train_case2_epoch (scheduler e) [df] g2)))
                = (params (snd (for_each (partitions [df]) train_case1_body g1)),
                   opt_state (snd (for_each (partitions [df]) train_case1_body g1)))).
  { rewrite H1, H2. reflexivity. }
  split; [exact (f_equal fst Heq) | exact (f_equal snd Heq)].
Qed.

(** X12: the reset cuts CASE 2 off from CASE 1: whatever data the CASE 1
    loop was trained on and whatever the generator drew, the CASE 2 loop after
    the reset leaves the parameters and the optimizer state that it leaves when
    it is run right after the first initialisation, for the same scheduler. *)
Theorem X12_reset_isolates_case2
  (scheduler : nat -> nat -> nat) (ddf_train ddf_case1 : list SDataFrame)
  (s1 s2 : NpRandomState) :
  let after_reset := snd (before_case2 ddf_case1 (fresh_kernel s1)) in
  let never_trained := snd (before_case1 (fresh_kernel s2)) in
  params (snd (train_case2 scheduler ddf_train after_reset))
    = params (snd (train_case2 scheduler ddf_train never_trained)) /\
  opt_state (snd (train_case2 scheduler ddf_train after_reset))
    = opt_state (snd (train_case2 scheduler ddf_train never_trained)).
Proof.
  intros after_reset never_trained. unfold train_case2.
  apply (for_each_respects
           (fun g g' => params g = params g' /\ opt_state g = opt_state g')).
  - intros e g g' [Hp Ho].
    pose proof (train_case2_epoch_model (scheduler e) ddf_train g) as H.
    pose proof (train_case2_epoch_model (scheduler e) ddf_train g') as H'.
    rewrite Hp, Ho, <- H' in H.
    split; [exact (f_equal fst H) | exact (f_equal snd H)].
  - unfold after_reset, never_trained.
    destruct (before_case2_run ddf_case1 (fresh_kernel s1)) as [s' [tr Hrun]].
    rewrite Hrun. unfold before_case1. rewrite reset_run. split; reflexivity.
Qed.

End MoreNotebookProperties.

(** ** The loss does not see the order of the rows *)

Section LossSymmetry.

Context {L : Libraries}.

Lemma Rsum_perm (u v : vector) : Permutation u v -> Rsum u = Rsum v.
Proof.
  induction 1 as [|a u v _ IH|a c u|u v t _ IH1 _ IH2].
  - reflexivity.
  - change (a + Rsum u = a + Rsum v). rewrite IH. reflexivity.
  - change (c + (a + Rsum u) = a + (c + Rsum u)). ring.
  - congruence.
Qed.

(** The sum of the squared differences, row by row: each row of inputs with
    its row of targets. *)
Lemma squared_differences_rowwise (params : Params) (x y_true : matrix) :
  length y_true = length x ->
  Forall (fun row => length row = 1%nat) y_true ->
  Rsum (map2 (fun t p => (t - p) ^ 2)
             (flatten y_true) (flatten (apply net_transform params x)))
  = Rsum (map (fun q => (hd 0 (snd q)
                         - hd 0 (flatten (apply net_transform params [fst q]))) ^ 2)
              (combine x y_true)).
Proof.
  revert y_true. induction x as [|row x IH]; intros [|target y_true] Hlen Hcol;
    try discriminate.
  - unfold map2. reflexivity.
  - inversion Hcol as [|? ? Htarget Hrest]; subst.
    destruct target as [|t [|t' target]]; try discriminate.
    change (row :: x) with ([row] ++ x). rewrite net_app.
    destruct (net_column params [row]) as [v [Hv Hpred]].
    destruct v as [|p [|p' v]]; try discriminate.
    rewrite Hpred. cbn [map app combine fst snd hd]. rewrite Hpred.
    unfold flatten. cbn [concat app map hd]. fold (flatten y_true).
    fold (flatten (apply net_transform params x)).
    unfold map2. cbn [combine map fst snd].
    change (map (fun q : R * R => (fst q - snd q) ^ 2)
              (combine (flatten y_true) (flatten (apply net_transform params x))))
      with (map2 (fun t p => (t - p) ^ 2)
              (flatten y_true) (flatten (apply net_transform params x))).
    change (Rsum (?a :: ?l)) with (a + Rsum l).
    rewrite IH; [reflexivity | cbn in Hlen; lia | exact Hrest].
Qed.

(** X13: the loss is a symmetric function of the batch: rearranging the
    rows of the inputs together with their targets does not change it. *)
Theorem X13_loss_invariant_under_row_order
  (params : Params) (x y_true x' y_true' : matrix) :
  length y_true = length x ->
  length y_true' = length x' ->
  Forall (fun row => length row = 1%nat) y_true ->
  Forall (fun row => length row = 1%nat) y_true' ->
  Permutation (combine x y_true) (combine x' y_true') ->
  loss_function params x y_true = loss_function params x' y_true'.
Proof.
  intros Hlen Hlen' Hcol Hcol' Hperm.
  rewrite (loss_as_sum params x y_true Hlen Hcol),
    (loss_as_sum params x' y_true' Hlen' Hcol').
  rewrite !squared_differences_rowwise by assumption.
  assert (Hsize : length x = length x').
  { apply Permutation_length in Hperm. rewrite !length_combine in Hperm. lia. }
  rewrite Hsize. f_equal. apply Rsum_perm, Permutation_map, Hperm.
Qed.

End LossSymmetry.

(** ** The further properties with hypotheses, on concrete inputs *)

Lemma X5_loss_nonnegative_zero_iff_exact_witness :
  [[1]; [2]] <> [] /\
  length [[3]; [5]] = length [[1]; [2]] /\
  Forall (fun row : vector => length row = 1%nat) [[3]; [5]] /\
  0 <= @loss_function constant_libraries (constant_tree 0) [[1]; [2]] [[3]; [5]].
Proof.
  assert (Hne : [[1]; [2]] <> @nil (list R)) by discriminate.
  assert (Hcol : Forall (fun row : vector => length row = 1%nat) [[3]; [5]])
    by (repeat constructor).
  split; [exact Hne|]. split; [reflexivity|]. split; [exact Hcol|].
  apply (@X5_loss_nonnegative_zero_iff_exact constant_libraries (constant_tree 0)
           [[1]; [2]] [[3]; [5]] Hne eq_refl Hcol).
Defined.

Lemma X6_loss_of_concatenated_batches_witness :
  [[1]] <> [] /\
  [[2]] <> [] /\
  length [[3]] = length [[1]] /\
  length [[5]] = length [[2]] /\
  Forall (fun row : vector => length row = 1%nat) [[3]] /\
  Forall (fun row : vector => length row = 1%nat) [[5]] /\
  INR (length ([[1]] ++ [[2]]))
  * @loss_function constant_libraries (constant_tree 0) ([[1]] ++ [[2]]) ([[3]] ++ [[5]])
  = INR (length [[1]]) * @loss_function constant_libraries (constant_tree 0) [[1]] [[3]]
    + INR (length [[2]]) * @loss_function constant_libraries (constant_tree 0) [[2]] [[5]].
Proof.
  assert (H1 : [[1]] <> @nil (list R)) by discriminate.
  assert (H2 : [[2]] <> @nil (list R)) by discriminate.
  assert (H3 : Forall (fun row : vector => length row = 1%nat) [[3]])
    by (repeat constructor).
  assert (H5 : Forall (fun row : vector => length row = 1%nat) [[5]])
    by (repeat constructor).
  split; [exact H1|]. split; [exact H2|].
  split; [reflexivity|]. split; [reflexivity|]. split; [exact H3|]. split; [exact H5|].
  apply (@X6_loss_of_concatenated_batches constant_libraries (constant_tree 0)
           [[1]] [[2]] [[3]] [[5]] H1 H2 eq_refl eq_refl H3 H5).
Defined.

Lemma constant_libraries_gradient_shape (p : Params) (x y : matrix) :
  tree_shape (@jax_grad constant_libraries (@loss_function constant_libraries) p x y)
  = tree_shape p.
Proof. cbn [jax_grad constant_libraries]. apply tree_map_shape. Qed.

Lemma X8_training_keeps_shapes_witness :
  (forall p x y,
      tree_shape (@jax_grad constant_libraries (@loss_function constant_libraries) p x y)
      = tree_shape p) /\
  shaped net_shape
    (params (snd (@notebook constant_libraries (fun _ _ => 0%nat)
                    [[mkSRow (mkRow 0 1 2) 1]] (fresh_kernel []))),
     opt_state (snd (@notebook constant_libraries (fun _ _ => 0%nat)
                    [[mkSRow (mkRow 0 1 2) 1]] (fresh_kernel [])))).
Proof.
  split; [exact constant_libraries_gradient_shape|].
  apply (@X8_training_keeps_shapes constant_libraries (fun _ _ => 0%nat)
           [[mkSRow (mkRow 0 1 2) 1]] [] constant_libraries_gradient_shape).
Defined.

Lemma X13_loss_invariant_under_row_order_witness :
  length [[3]; [5]] = length [[1]; [2]] /\
  length [[5]; [3]] = length [[2]; [1]] /\
  Forall (fun row : vector => length row = 1%nat) [[3]; [5]] /\
  Forall (fun row : vector => length row = 1%nat) [[5]; [3]] /\
  Permutation (combine [[1]; [2]] [[3]; [5]]) (combine [[2]; [1]] [[5]; [3]]) /\
  @loss_function constant_libraries (constant_tree 0) [[1]; [2]] [[3]; [5]]
  = @loss_function constant_libraries (constant_tree 0) [[2]; [1]] [[5]; [3]].
Proof.
  assert (H1 : Forall (fun row : vector => length row = 1%nat) [[3]; [5]])
    by (repeat constructor).
  assert (H2 : Forall (fun row : vector => length row = 1%nat) [[5]; [3]])
    by (repeat constructor).
  assert (Hperm : Permutation (combine [[1]; [2]] [[3]; [5]])
                              (combine [[2]; [1]] [[5]; [3]]))
    by apply perm_swap.
  split; [reflexivity|]. split; [reflexivity|]. split; [exact H1|].
  split; [exact H2|]. split; [exact Hperm|].
  apply (@X13_loss_invariant_under_row_order constant_libraries (constant_tree 0)
           [[1]; [2]] [[3]; [5]] [[2]; [1]] [[5]; [3]] eq_refl eq_refl H1 H2 Hperm).
Defined.
